(** * PhoenixVisualizer migration scripts: a shallow embedding

    The repository holds four batch scripts that rewrite C# source files:

    - [Fix]               : PhoenixVisualizer.Core/Effects/Nodes/AvsEffects/fix.py
    - [CanvasConversions] : fix_all_node_canvas_conversions.py
    - [FixSimple]         : fix_simple.py
    - [FixBraces]         : fix_braces.py

    Text is a list of Unicode code points (Python [str]).  The file system
    maps a path to the text of the file as [open(..., encoding='utf-8')]
    reads and writes it (the translation of line ends by text mode is not
    modelled); file operations may raise, and every effect is logged in
    chronological order. *)

From Stdlib Require Import NArith Ascii String.
From stdpp Require Import gmap strings list fin_maps.

Local Open Scope N_scope.
Local Open Scope nat_scope.

(* ===================================================================== *)
(** ** Text *)
(* ===================================================================== *)

Abbreviation text := (list N).

(** A source literal, as the list of its code points (all literals of the
    scripts that are modelled are ASCII). *)
Definition lit (s : string) : text :=
  map N_of_ascii (list_ascii_of_string s).

Definition LF : N := 10%N.

(** [Py_UNICODE_ISSPACE]: the characters [\s] matches in a [str] pattern and
    [str.strip]/[str.rstrip] remove. *)
Definition isspace (c : N) : bool :=
  ((9 <=? c) && (c <=? 13) || (28 <=? c) && (c <=? 32)
   || (c =? 133) || (c =? 160) || (c =? 5760)
   || (8192 <=? c) && (c <=? 8202)
   || (c =? 8232) || (c =? 8233) || (c =? 8239) || (c =? 8287)
   || (c =? 12288))%N.

(** [s.startswith(p)] *)
Fixpoint startswith (p s : text) : bool :=
  match p, s with
  | [], _ => true
  | _ :: _, [] => false
  | a :: p', b :: s' => (a =? b)%N && startswith p' s'
  end.

(** [p in s] *)
Fixpoint contains (p s : text) : bool :=
  startswith p s ||
  match s with
  | [] => false
  | _ :: s' => contains p s'
  end.

(** [s.endswith(p)] *)
Definition endswith (p s : text) : bool :=
  startswith (rev p) (rev s).

(** [s.rstrip()] and [s.strip()] *)
Fixpoint lstrip (s : text) : text :=
  match s with
  | [] => []
  | c :: s' => if isspace c then lstrip s' else s
  end.

Definition rstrip (s : text) : text := rev (lstrip (rev s)).

Definition strip (s : text) : text := lstrip (rstrip s).

(** The scanning loop shared by [str.replace] and [str.count] for a non-empty
    pattern: [skip] characters of the current occurrence are still to be
    passed over. *)
Fixpoint replace_from (old new s : text) (skip : nat) : text :=
  match s with
  | [] => []
  | c :: s' =>
      match skip with
      | S k => replace_from old new s' k
      | O =>
          if startswith old s
          then new ++ replace_from old new s' (length old - 1)
          else c :: replace_from old new s' 0
      end
  end.

(** [s.replace(old, new)]; with an empty [old], Python puts [new] before
    every character and at the end. *)
Definition replace (old new s : text) : text :=
  match old with
  | [] => new ++ concat (map (fun c => c :: new) s)
  | _ :: _ => replace_from old new s 0
  end.

Fixpoint count_from (old s : text) (skip : nat) : nat :=
  match s with
  | [] => 0
  | _ :: s' =>
      match skip with
      | S k => count_from old s' k
      | O =>
          if startswith old s
          then S (count_from old s' (length old - 1))
          else count_from old s' 0
      end
  end.

(** [s.count(old)] (non-overlapping occurrences); an empty [old] is found
    between all characters. *)
Definition count (old s : text) : nat :=
  match old with
  | [] => S (length s)
  | _ :: _ => count_from old s 0
  end.

Definition text_eqb (a b : text) : bool := bool_decide (a = b).

(* ===================================================================== *)
(** ** Regular expressions (the fragment of [re] the scripts use) *)
(* ===================================================================== *)

(** A pattern is a sequence of items: literal text, a greedy star over a
    character set ([\s*], [[^)]*], [[^}]*]) and the end anchor [$].  The
    capturing groups of fix_all_node_canvas_conversions.py hold literal text
    and are never referred to by a replacement, so they are read as their
    contents; no replacement template of the scripts holds a backslash. *)
Inductive item : Type :=
  | Lit (l : text)
  | StarSet (p : N -> bool)
  | Dollar.

Abbreviation pattern := (list item).

(** Greedy star of the backtracking matcher: take one more character first,
    and fall back on the continuation [k] when that fails. *)
Fixpoint star (p : N -> bool) (k : text -> option text) (s : text) : option text :=
  match s with
  | c :: s' =>
      if p c then
        match star p k s' with
        | Some r => Some r
        | None => k s
        end
      else k s
  | [] => k s
  end.

(** [$] without [re.MULTILINE]: at the end of the string, or just before a
    newline that ends the string. *)
Definition at_end (s : text) : bool :=
  match s with
  | [] => true
  | [c] => (c =? LF)%N
  | _ => false
  end.

(** [match_here pat s]: the text left after the first (in backtracking
    order) match of [pat] at the start of [s]. *)
Fixpoint match_here (pat : pattern) (s : text) : option text :=
  match pat with
  | [] => Some s
  | Lit l :: pat' =>
      if startswith l s then match_here pat' (drop (length l) s) else None
  | StarSet p :: pat' => star p (match_here pat') s
  | Dollar :: pat' => if at_end s then match_here pat' s else None
  end.

(** [re.search(pat, s)]: the span [(start, stop)] of the leftmost match. *)
Fixpoint search_from (pat : pattern) (s : text) (i : nat) : option (nat * nat) :=
  match match_here pat s with
  | Some rest => Some (i, i + (length s - length rest))
  | None =>
      match s with
      | [] => None
      | _ :: s' => search_from pat s' (S i)
      end
  end.

Definition search (pat : pattern) (s : text) : option (nat * nat) :=
  search_from pat s 0.

(** [re.sub(pat, repl, s)]: every leftmost non-overlapping match is replaced
    (no [count] is ever given).  The patterns of the scripts all start with a
    non-empty literal, so they have no empty match; the branches for an
    empty match put [repl] there and move on by one character. *)
Fixpoint sub_from (pat : pattern) (repl s : text) (skip : nat) : text :=
  match s with
  | [] =>
      match skip, match_here pat [] with
      | O, Some _ => repl
      | _, _ => []
      end
  | c :: s' =>
      match skip with
      | S k => sub_from pat repl s' k
      | O =>
          match match_here pat s with
          | Some rest =>
              match length s - length rest with
              | O => repl ++ c :: sub_from pat repl s' 0
              | S m => repl ++ sub_from pat repl s' m
              end
          | None => c :: sub_from pat repl s' 0
          end
      end
  end.

Definition sub (pat : pattern) (repl s : text) : text := sub_from pat repl s 0.

Definition is_found {A} (o : option A) : bool :=
  match o with Some _ => true | None => false end.

(* ===================================================================== *)
(** ** Files, exceptions and the log of effects *)
(* ===================================================================== *)

Inductive exn : Type :=
  | FileNotFoundError (p : string)
  | PermissionError (p : string)
  | SameFileError (p : string).

(** What [verify_file_structure] can find. *)
Inductive issue : Type :=
  | UnmatchedRegions (regions endregions : nat)
  | IncompleteConfigurationRegion
  | NoClosingBrace.

(** The status lines of the scripts that tell what happened to a file; the
    other progress lines are left out. *)
Inductive message : Type :=
  | MsgNoChanges                       (* fix.py: No changes made *)
  | MsgStructure (issues : list issue) (* fix.py: issues found / verified *)
  | MsgFixed (p : string)
  | MsgNoChangesNeeded (p : string)
  | MsgNotFound (p : string)
  | MsgAlreadyAdapter (p : string)
  | MsgNoCanvasPattern (p : string)
  | MsgError (p : string) (e : exn).

Inductive event : Type :=
  | EvRead (p : string)
  | EvCopy (src dst : string)
  | EvWrite (p : string) (c : text)
  | EvPrint (m : message).

(** The world a script runs in: the text of every existing file, the paths
    that cannot be opened for reading or for writing, and the effects so
    far, oldest first. *)
Record world : Type := World {
  files : gmap string text;
  noread : string -> bool;
  nowrite : string -> bool;
  log : list event
}.

Inductive result (A : Type) : Type :=
  | Ok (a : A)
  | Raise (e : exn).
Arguments Ok {A} a.
Arguments Raise {A} e.

Definition M (A : Type) : Type := world -> result A * world.

Definition ret {A} (a : A) : M A := fun w => (Ok a, w).

Definition bind {A B} (m : M A) (k : A -> M B) : M B :=
  fun w =>
    match m w with
    | (Ok a, w') => k a w'
    | (Raise e, w') => (Raise e, w')
    end.

Notation "x <- m ;; k" := (bind m (fun x => k))
  (at level 100, m at next level, right associativity).
Notation "m ;;; k" := (bind m (fun _ => k))
  (at level 100, right associativity).

(** [try: m except Exception as e: h e] *)
Definition try_except {A} (m : M A) (h : exn -> M A) : M A :=
  fun w =>
    match m w with
    | (Ok a, w') => (Ok a, w')
    | (Raise e, w') => h e w'
    end.

Definition emit (ev : event) (w : world) : world :=
  World (files w) (noread w) (nowrite w) (log w ++ [ev]).

Definition store (p : string) (c : text) (w : world) : world :=
  World (<[p := c]> (files w)) (noread w) (nowrite w) (log w).

(** [open(p, 'r').read()] *)
Definition read (p : string) : M text :=
  fun w =>
    match files w !! p with
    | None => (Raise (FileNotFoundError p), w)
    | Some c =>
        if noread w p then (Raise (PermissionError p), w)
        else (Ok c, emit (EvRead p) w)
    end.

(** [open(p, 'w').write(c)] *)
Definition write (p : string) (c : text) : M unit :=
  fun w =>
    if nowrite w p then (Raise (PermissionError p), w)
    else (Ok tt, emit (EvWrite p c) (store p c w)).

(** [shutil.copy2(src, dst)] *)
Definition copy2 (src dst : string) : M unit :=
  fun w =>
    match files w !! src with
    | None => (Raise (FileNotFoundError src), w)
    | Some c =>
        if bool_decide (src = dst) then (Raise (SameFileError src), w)
        else if noread w src then (Raise (PermissionError src), w)
        else if nowrite w dst then (Raise (PermissionError dst), w)
        else (Ok tt, emit (EvCopy src dst) (store dst c w))
    end.

(** [os.path.exists(p)] *)
Definition exists_ (p : string) : M bool :=
  fun w => (Ok (is_found (files w !! p)), w).

Definition print (m : message) : M unit :=
  fun w => (Ok tt, emit (EvPrint m) w).

(** [for p in ps: body(p)] *)
Fixpoint for_each (ps : list string) (body : string -> M unit) : M unit :=
  match ps with
  | [] => ret tt
  | p :: ps' => body p ;;; for_each ps' body
  end.

Definition unlines (ls : list text) : text :=
  match ls with
  | [] => []
  | l :: ls' => l ++ concat (map (fun x => LF :: x) ls')
  end.

(* ===================================================================== *)
(** ** fix.py *)
(* ===================================================================== *)

Module Fix.

Definition not_char (x : N) : N -> bool := fun c => negb (c =? x)%N.

Definition RPAREN : N := 41%N.
Definition LBRACE : N := 123%N.
Definition RBRACE : N := 125%N.
Definition DQUOTE : N := 34%N.

(** [\s*\{[^}]*\}], the tail of the three method patterns. *)
Definition body_items : pattern :=
  [StarSet isspace; Lit [LBRACE]; StarSet (not_char RBRACE); Lit [RBRACE]].

Definition process_frame_sig : pattern :=
  [Lit (lit "public override void ProcessFrame("); StarSet (not_char RPAREN);
   Lit [RPAREN]].

Definition get_config_sig : pattern :=
  [Lit (lit "public override Dictionary<string, object> GetConfiguration()")].

Definition apply_config_sig : pattern :=
  [Lit (lit "public override void ApplyConfiguration(Dictionary<string, object> config)")].

Definition process_frame_pattern : pattern := process_frame_sig ++ body_items.
Definition get_config_pattern : pattern := get_config_sig ++ body_items.
Definition apply_config_pattern : pattern := apply_config_sig ++ body_items.

Definition region_gap : pattern :=
  [StarSet isspace; Lit [LF]; StarSet isspace; Lit [LF];
   StarSet isspace; Lit [LF]; StarSet isspace].

Definition incomplete_region_pattern : pattern :=
  Lit (lit "#region Configuration") :: region_gap ++ [Lit (lit "#endregion")].

Definition trailing_region_pattern : pattern :=
  Lit (lit "#region Configuration") :: region_gap ++ [Dollar].

(** The text that takes the place of a ProcessFrame method. *)
Definition process_core_text : text := unlines [
  lit "        protected override object ProcessCore(Dictionary<string, object> inputs, AudioFeatures audioFeatures)";
  lit "        {";
  lit "            if (!inputs.TryGetValue(" ++ [DQUOTE] ++ lit "Image" ++ [DQUOTE]
    ++ lit ", out var input) || input is not ImageBuffer imageBuffer)";
  lit "                return GetDefaultOutput();";
  [];
  lit "            var output = new ImageBuffer(imageBuffer.Width, imageBuffer.Height);";
  lit "            ";
  lit "            // TODO: Implement actual effect logic here";
  lit "            // For now, just copy input to output";
  lit "            for (int i = 0; i < output.Pixels.Length; i++)";
  lit "            {";
  lit "                output.Pixels[i] = imageBuffer.Pixels[i];";
  lit "            }";
  lit "            ";
  lit "            return output;";
  lit "        }";
  [];
  lit "        public override object GetDefaultOutput()";
  lit "        {";
  lit "            return new ImageBuffer(800, 600);";
  lit "        }" ].

(** One [if re.search(p, content): content = re.sub(p, repl, content);
    changes_made = True]. *)
Definition apply_rule (pat : pattern) (repl : text) (st : text * bool) : text * bool :=
  if is_found (search pat (fst st)) then (sub pat repl (fst st), true) else st.

(** Steps 1 to 4 of [fix_effect_file_improved]: the content after the five
    rules, and the flag [changes_made]. *)
Definition rules (content : text) : text * bool :=
  apply_rule trailing_region_pattern []
    (apply_rule incomplete_region_pattern []
      (apply_rule apply_config_pattern []
        (apply_rule get_config_pattern []
          (apply_rule process_frame_pattern process_core_text
            (content, false))))).

Definition changes_made (content : text) : bool := snd (rules content).

(** Step 5, the content that is compared with the original. *)
Definition transform (content : text) : text :=
  rstrip (fst (rules content)) ++ [LF].

Definition structure_issues (content : text) : list issue :=
  let region_count := count (lit "#region") content in
  let endregion_count := count (lit "#endregion") content in
  (if bool_decide (region_count = endregion_count) then []
   else [UnmatchedRegions region_count endregion_count])
  ++ (if contains (lit "#region Configuration" ++ [LF; LF; LF; LF] ++ lit "#endregion") content
      then [IncompleteConfigurationRegion] else [])
  ++ (if endswith [RBRACE] (strip content) then [] else [NoClosingBrace]).

Definition verify_file_structure (file_path : string) : M unit :=
  content <- read file_path ;;
  print (MsgStructure (structure_issues content)).

Definition backup_of (file_path : string) : string :=
  String.append file_path ".backup".

Definition fix_effect_file_improved (file_path : string) : M bool :=
  original_content <- read file_path ;;
  let content := transform original_content in
  if text_eqb content original_content then
    print MsgNoChanges ;;; ret false
  else
    copy2 file_path (backup_of file_path) ;;;
    write file_path content ;;;
    verify_file_structure file_path ;;;
    ret true.

Definition process (test_file : string) : M unit :=
  present <- exists_ test_file ;;
  if present then
    success <- fix_effect_file_improved test_file ;;
    if success then print (MsgFixed test_file)
    else print (MsgNoChangesNeeded test_file)
  else print (MsgNotFound test_file).

(** The loop of [main], over any list of paths. *)
Definition batch (test_files : list string) : M unit :=
  for_each test_files process.

Definition test_files : list string :=
  ["PhoenixVisualizer.Core/Effects/Nodes/AvsEffects/SVPEffectsNode.cs";
   "PhoenixVisualizer.Core/Effects/Nodes/AvsEffects/SimpleEffectsNode.cs"]%string.

Definition main : M unit := batch test_files.

End Fix.


(* ===================================================================== *)
(** ** fix_all_node_canvas_conversions.py *)
(* ===================================================================== *)

Module CanvasConversions.

Definition adapter_name : text := lit "SkiaCanvasAdapter".

Definition patterns : list (pattern * text) :=
  [([Lit (lit "Canvas = canvas")], lit "Canvas = new SkiaCanvasAdapter(canvas)");
   ([Lit (lit "Canvas = c")], lit "Canvas = new SkiaCanvasAdapter(c)");
   ([Lit (lit "Canvas=canvas")], lit "Canvas=new SkiaCanvasAdapter(canvas)")].

(** The [for pattern, replacement in patterns] loop with its [break]:
    the new content when a pattern was found ([fixed]), [None] otherwise. *)
Fixpoint first_fix (ps : list (pattern * text)) (content : text) : option text :=
  match ps with
  | [] => None
  | (pat, replacement) :: ps' =>
      if is_found (search pat content) then Some (sub pat replacement content)
      else first_fix ps' content
  end.

Definition fix_node_file (file_path : string) : M unit :=
  content <- read file_path ;;
  if contains adapter_name content then
    print (MsgAlreadyAdapter file_path)
  else
    match first_fix patterns content with
    | Some content' =>
        write file_path content' ;;;
        print (MsgFixed file_path)
    | None => print (MsgNoCanvasPattern file_path)
    end.

(** What one call leaves as the content, as a function of the content read. *)
Definition transform (content : text) : text :=
  if contains adapter_name content then content
  else match first_fix patterns content with
       | Some content' => content'
       | None => content
       end.

(** [changed]: the call writes the file. *)
Definition changed (content : text) : bool :=
  negb (contains adapter_name content) && is_found (first_fix patterns content).

Definition process (file_path : string) : M unit :=
  present <- exists_ file_path ;;
  if present then fix_node_file file_path
  else print (MsgNotFound file_path).

Definition batch (node_files : list string) : M unit :=
  for_each node_files process.

Definition node_files : list string :=
  ["PhoenixVisualizer.Visuals/NodeAudioFlowField.cs";
   "PhoenixVisualizer.Visuals/NodeBassBloom.cs";
   "PhoenixVisualizer.Visuals/NodeBassKicker.cs";
   "PhoenixVisualizer.Visuals/NodeBassParticles.cs";
   "PhoenixVisualizer.Visuals/NodeBeatKaleidoTunnel.cs";
   "PhoenixVisualizer.Visuals/NodeBeatRings.cs";
   "PhoenixVisualizer.Visuals/NodeButterflyField.cs";
   "PhoenixVisualizer.Visuals/NodeGeoLattice.cs";
   "PhoenixVisualizer.Visuals/NodeHexGridPulse.cs";
   "PhoenixVisualizer.Visuals/NodeKaleidoBeats.cs";
   "PhoenixVisualizer.Visuals/NodeParticlesBeat.cs";
   "PhoenixVisualizer.Visuals/NodePixelSortPlasma.cs";
   "PhoenixVisualizer.Visuals/NodePlasmaWarp.cs";
   "PhoenixVisualizer.Visuals/NodePulseTunnel.cs";
   "PhoenixVisualizer.Visuals/NodeRainbowSpectrum.cs";
   "PhoenixVisualizer.Visuals/NodeScopeKaleidoGlow.cs";
   "PhoenixVisualizer.Visuals/NodeScopeRibbon.cs";
   "PhoenixVisualizer.Visuals/NodeSpectrumNebula.cs";
   "PhoenixVisualizer.Visuals/NodeTextBeatEcho.cs";
   "PhoenixVisualizer.Visuals/NodeTextEcho.cs";
   "PhoenixVisualizer.Visuals/NodeTriangulateScope.cs";
   "PhoenixVisualizer.Visuals/NodeVectorFieldScope.cs";
   "PhoenixVisualizer.Visuals/NodeVectorGrid.cs";
   "PhoenixVisualizer.Visuals/NodeWaveStarfield.cs";
   "PhoenixVisualizer.Visuals/NodeXsFireworks.cs";
   "PhoenixVisualizer.Visuals/NodeXsLcdScrub.cs";
   "PhoenixVisualizer.Visuals/NodeXsLisa.cs";
   "PhoenixVisualizer.Visuals/NodeXsLightning.cs";
   "PhoenixVisualizer.Visuals/NodeXsPenrose.cs";
   "PhoenixVisualizer.Visuals/NodeXsPlasma.cs";
   "PhoenixVisualizer.Visuals/NodeXsRotor.cs";
   "PhoenixVisualizer.Visuals/NodeXsRorschach.cs";
   "PhoenixVisualizer.Visuals/NodeXsVortex.cs"]%string.

Definition main : M unit := batch node_files.

End CanvasConversions.

(* ===================================================================== *)
(** ** fix_simple.py *)
(* ===================================================================== *)

Module FixSimple.

Definition render_prefix : text :=
  lit ".Render(f.Spectrum, f.Spectrum, new RenderContext { Width = _width, Height = _height, Waveform = f.Spectrum, Spectrum = f.Spectrum, Time = f.Time, Beat = f.Beat, Volume = f.Volume, Canvas = ".

Definition step1 (content : text) : text :=
  replace (lit "EffectRegistry.Create(") (lit "EffectRegistry.CreateByName(") content.

Definition step2 (content : text) : text :=
  replace (lit ".Process(f,") render_prefix content.

Definition step3 (content : text) : text :=
  replace (lit ".Process(f, c)") (render_prefix ++ lit "c })") content.

Definition step4 (content : text) : text :=
  replace (lit "Canvas =  canvas);") (lit "Canvas = canvas });") content.

Definition step5 (content : text) : text :=
  replace (lit "Canvas = c })") (lit "Canvas = c });") content.

Definition transform (content : text) : text :=
  step5 (step4 (step3 (step2 (step1 content)))).

Definition fix_node_file (filepath : string) : M unit :=
  content <- read filepath ;;
  write filepath (transform content).

Definition process (filepath : string) : M unit :=
  try_except
    (fix_node_file filepath ;;; print (MsgFixed filepath))
    (fun e => print (MsgError filepath e)).

(** The loop of [main] over the files [glob.glob] returned. *)
Definition batch (node_files : list string) : M unit :=
  for_each node_files process.

(** [main], given what [glob.glob('PhoenixVisualizer.Visuals/Node*.cs')]
    returns. *)
Definition main (node_files : list string) : M unit := batch node_files.

End FixSimple.

(* ===================================================================== *)
(** ** fix_braces.py *)
(* ===================================================================== *)

Module FixBraces.

Definition transform (content : text) : text :=
  replace (lit "Canvas =  canvas);") (lit "Canvas = canvas });")
    (replace (lit "Canvas = c);") (lit "Canvas = c });") content).

Definition fix_node_file (filepath : string) : M unit :=
  content <- read filepath ;;
  write filepath (transform content).

Definition process (filepath : string) : M unit :=
  try_except
    (fix_node_file filepath ;;; print (MsgFixed filepath))
    (fun e => print (MsgError filepath e)).

(** The loop of [main] over the files [glob.glob] returned. *)
Definition batch (node_files : list string) : M unit :=
  for_each node_files process.

Definition main (node_files : list string) : M unit := batch node_files.

End FixBraces.

(* ===================================================================== *)
(** ** Vocabulary of the statements *)
(* ===================================================================== *)

(** [str.replace] with a non-empty pattern, as the scan it is. *)
Definition scan (old new s : text) : text := replace_from old new s 0.

(** Two texts are comparable when one starts the other. *)
Definition comparable (x y : text) : bool := startswith x y || startswith y x.

Fixpoint nonempty_tails (s : text) : list text :=
  match s with
  | [] => []
  | _ :: s' => s :: nonempty_tails s'
  end.

(** No occurrence of [old] starts before a text [q] and runs into it. *)
Definition no_straddle (old q : text) : bool :=
  forallb (fun x => negb (comparable x q)) (nonempty_tails (tl old)).

(** No occurrence of [old] starts inside [q]. *)
Definition no_inner_match (old q : text) : bool :=
  forallb (fun y => negb (comparable old y)) (nonempty_tails q).

(** No non-empty end of [x] is comparable with [y]. *)
Definition tails_avoid (x y : text) : bool :=
  forallb (fun v => negb (comparable v y)) (nonempty_tails x).

(** The call that fix_simple.py has two replacements for, and what is left
    of it. *)
Definition process_call : text := lit ".Process(f, c)".
Definition process_call_prefix : text := lit ".Process(f,".
Definition dangling_canvas : text := lit "Canvas =  c)".

(** Closed facts about the literals of the scripts are settled by
    evaluation. *)
Ltac lit_nonempty :=
  let E := fresh in intros E; vm_compute in E; discriminate E.

Ltac by_evaluation := vm_compute; reflexivity.

(** The fields of a world after [emit] and [store]. *)
Ltac world_simpl :=
  unfold emit, store; cbn [files noread nowrite log].

(** *** Patterns *)

(** [lang pat m r]: [pat] stands for the text [m] when [r] follows it. *)
Inductive lang : pattern -> text -> text -> Prop :=
  | lang_nil r : lang [] [] r
  | lang_lit l pat m r :
      lang pat m r -> lang (Lit l :: pat) (l ++ m) r
  | lang_star p pat w m r :
      Forall (fun c => p c = true) w -> lang pat m r ->
      lang (StarSet p :: pat) (w ++ m) r
  | lang_dollar pat m r :
      at_end (m ++ r) = true -> lang pat m r -> lang (Dollar :: pat) m r.


(** A pattern that starts with a non-empty literal has no empty match. *)
Definition starts_with_literal (pat : pattern) : bool :=
  match pat with
  | Lit (_ :: _) :: _ => true
  | _ => false
  end.

(** Every pattern that [re.search] is called with, in fix.py and in
    fix_all_node_canvas_conversions.py. *)
Definition catalog : list pattern :=
  [Fix.process_frame_pattern; Fix.get_config_pattern;
   Fix.apply_config_pattern; Fix.incomplete_region_pattern;
   Fix.trailing_region_pattern]
  ++ map fst CanvasConversions.patterns.

(** The answer of a matcher: no match, when the pattern matches at no
    position of the text; or a non-empty span inside the text on which the
    pattern matches, no position before it having a match. *)
Definition well_answered (pat : pattern) (s : text) : Prop :=
  (search pat s = None /\ forall k, match_here pat (drop k s) = None)
  \/
  exists i j, search pat s = Some (i, j) /\ i < j /\ j <= length s /\
              match_here pat (drop i s) = Some (drop j s) /\
              forall k, k < i -> match_here pat (drop k s) = None.

(** Following the spec's words: the position just after the first closing
    delimiter at which the nesting of braces returns to depth zero. *)
Fixpoint balanced_stop_from (depth : nat) (s : text) (i : nat) : option nat :=
  match s with
  | [] => None
  | c :: s' =>
      if (c =? Fix.LBRACE)%N then balanced_stop_from (S depth) s' (S i)
      else if (c =? Fix.RBRACE)%N then
        match depth with
        | 0 => balanced_stop_from 0 s' (S i)
        | 1 => Some (S i)
        | S d => balanced_stop_from d s' (S i)
        end
      else balanced_stop_from depth s' (S i)
  end.

Definition balanced_stop (s : text) : option nat := balanced_stop_from 0 s 0.

Definition nested_method : text :=
  lit "public override void ProcessFrame(int x) { if (a) { b(); } c(); }".





(** *** Runs of fix.py *)

(** The world after the backup, and after the write that follows it. *)
Definition backed_up (p : string) (orig : text) (w : world) : world :=
  emit (EvCopy p (Fix.backup_of p))
    (store (Fix.backup_of p) orig (emit (EvRead p) w)).

Definition written (p : string) (orig new : text) (w : world) : world :=
  emit (EvWrite p new) (store p new (backed_up p orig w)).

Definition verified (p : string) (orig new : text) (w : world) : world :=
  emit (EvPrint (MsgStructure (Fix.structure_issues new)))
    (emit (EvRead p) (written p orig new w)).

(** All the ways a call of [fix_effect_file_improved] can go. *)
Inductive fix_run (w : world) (p : string) : result bool * world -> Prop :=
  | fix_missing :
      files w !! p = None ->
      fix_run w p (Raise (FileNotFoundError p), w)
  | fix_unreadable orig :
      files w !! p = Some orig -> noread w p = true ->
      fix_run w p (Raise (PermissionError p), w)
  | fix_unchanged orig :
      files w !! p = Some orig -> noread w p = false ->
      Fix.transform orig = orig ->
      fix_run w p (Ok false, emit (EvPrint MsgNoChanges) (emit (EvRead p) w))
  | fix_backup_failed orig :
      files w !! p = Some orig -> noread w p = false ->
      Fix.transform orig <> orig ->
      nowrite w (Fix.backup_of p) = true ->
      fix_run w p (Raise (PermissionError (Fix.backup_of p)), emit (EvRead p) w)
  | fix_write_failed orig :
      files w !! p = Some orig -> noread w p = false ->
      Fix.transform orig <> orig ->
      nowrite w (Fix.backup_of p) = false -> nowrite w p = true ->
      fix_run w p (Raise (PermissionError p), backed_up p orig w)
  | fix_changed orig :
      files w !! p = Some orig -> noread w p = false ->
      Fix.transform orig <> orig ->
      nowrite w (Fix.backup_of p) = false -> nowrite w p = false ->
      fix_run w p (Ok true, verified p orig (Fix.transform orig) w).

(** Every write in a piece of log comes right after the copy of the same
    file to its backup. *)
Definition write_after_backup (evs : list event) : Prop :=
  forall i q c, evs !! i = Some (EvWrite q c) ->
  exists j, i = S j /\ evs !! j = Some (EvCopy q (Fix.backup_of q)).

Definition is_write (ev : event) : bool :=
  match ev with EvWrite _ _ => true | _ => false end.

(** *** Worlds and contents the statements are tried on *)

(** A world with one readable and writable file. *)
Definition one_file (p : string) (content : text) : world :=
  World {[p := content]} (fun _ => false) (fun _ => false) [].

Definition trailing_blanks : text := lit "}  " ++ [LF; LF].

(** Between two worlds no file was written. *)
Definition untouched (w w' : world) : Prop :=
  files w' = files w
  /\ exists evs, log w' = log w ++ evs
                 /\ forallb (fun ev => negb (is_write ev)) evs = true.

(** fix_simple.py and fix_braces.py: read, transform, write. *)
Definition rewrite_file (g : text -> text) (p : string) : M unit :=
  content <- read p ;; write p (g content).

Definition settled : text := lit "}" ++ [LF].

(** The file an outcome line is about. *)
Definition outcome_of (ev : event) : option string :=
  match ev with
  | EvPrint (MsgFixed p) | EvPrint (MsgNoChangesNeeded p)
  | EvPrint (MsgNotFound p) | EvPrint (MsgAlreadyAdapter p)
  | EvPrint (MsgNoCanvasPattern p) | EvPrint (MsgError p _) => Some p
  | _ => None
  end.

Definition reported (evs : list event) : list string := omap outcome_of evs.

(** [try: fix_node_file(p); print(Fixed) except Exception as e: print(Error)] *)
Definition guarded_process (g : text -> text) (p : string) : M unit :=
  try_except
    (rewrite_file g p ;;; print (MsgFixed p))
    (fun e => print (MsgError p e)).

(** Two files, the first of which cannot be opened for reading. *)
Definition two_files : world :=
  World (<["A.cs"%string := lit "int a;"]> {["B.cs"%string := lit "int b;"]})
        (fun p => bool_decide (p = "A.cs"%string)) (fun _ => false) [].

(** *** Texts the rules of fix.py are about *)

Definition blanks (w : text) : Prop := Forall (fun c => isspace c = true) w.

(** A Configuration region that holds nothing but white space, with at
    least three line ends in it. *)
Definition empty_configuration_region (w1 w2 w3 w4 : text) : text :=
  lit "#region Configuration" ++ w1 ++ [LF] ++ w2 ++ [LF] ++ w3 ++ [LF]
    ++ w4 ++ lit "#endregion".


(** A Configuration region that is opened and followed by white space
    only, with at least three line ends. *)
Definition open_configuration_region (w1 w2 w3 w4 : text) : text :=
  lit "#region Configuration" ++ w1 ++ [LF] ++ w2 ++ [LF] ++ w3 ++ [LF] ++ w4.


(** The text fix_simple.py puts for [.Process(f,], without its last
    field [Canvas = ]. *)
Definition render_head : text :=
  lit ".Render(f.Spectrum, f.Spectrum, new RenderContext { Width = _width, Height = _height, Waveform = f.Spectrum, Spectrum = f.Spectrum, Time = f.Time, Beat = f.Beat, Volume = f.Volume, ".

(* ===================================================================== *)
(** ** Facts about prefixes and occurrences *)
(* ===================================================================== *)

Lemma startswith_prefix (p s : text) :
  startswith p s = true <-> exists t, s = p ++ t.
Proof.
  revert s. induction p as [|a p IH]; intros s; simpl.
  - split; [intros _; by exists s | done].
  - destruct s as [|b s].
    + split; [done | intros [t Ht]; discriminate].
    + rewrite andb_true_iff, N.eqb_eq, IH. split.
      * intros [-> [t ->]]. by exists t.
      * intros [t Ht]. injection Ht as -> ->. eauto.
Qed.

Lemma startswith_app (p t : text) : startswith p (p ++ t) = true.
Proof. apply startswith_prefix. by exists t. Qed.

Lemma startswith_drop (p s : text) :
  startswith p s = true -> s = p ++ drop (length p) s.
Proof.
  intros [t ->]%startswith_prefix. by rewrite drop_app_length.
Qed.

Lemma startswith_length (p s : text) :
  startswith p s = true -> length p <= length s.
Proof.
  intros [t ->]%startswith_prefix. rewrite length_app. lia.
Qed.

(** A prefix of [x ++ y] is a prefix of [x], or runs over the end of [x]. *)
Lemma startswith_app_inv (p x y : text) :
  startswith p (x ++ y) = true ->
  startswith p x = true \/
  exists v, p = x ++ v /\ v <> [] /\ startswith v y = true.
Proof.
  revert x. induction p as [|a p IH]; intros x H.
  - by left.
  - destruct x as [|b x].
    + right. exists (a :: p). by repeat split.
    + simpl in H. apply andb_true_iff in H as [Hab H].
      apply N.eqb_eq in Hab as ->.
      destruct (IH _ H) as [Hl | (v & -> & Hv & Hs)].
      * left. simpl. by rewrite N.eqb_refl.
      * right. exists v. by repeat split.
Qed.

Lemma startswith_app_comparable (p x y : text) :
  startswith p (x ++ y) = true -> comparable p x = true.
Proof.
  intros H. unfold comparable.
  destruct (startswith_app_inv _ _ _ H) as [-> | (v & -> & _ & _)]; [done |].
  by rewrite startswith_app, orb_true_r.
Qed.

Lemma nonempty_tails_self (v : text) : v <> [] -> In v (nonempty_tails v).
Proof. destruct v; [done | intros _; by left]. Qed.

Lemma nonempty_tails_app (x v : text) :
  v <> [] -> In v (nonempty_tails (x ++ v)).
Proof.
  intros Hv. induction x as [|c x IH]; simpl.
  - by apply nonempty_tails_self.
  - by right.
Qed.

Lemma contains_occurs (p s : text) :
  contains p s = true <-> exists a b, s = a ++ p ++ b.
Proof.
  induction s as [|c s IH]; simpl.
  - rewrite orb_false_r, startswith_prefix. split.
    + intros [t Ht]. by exists [], t.
    + intros (a & b & H). destruct a; [by exists b |]. discriminate.
  - rewrite orb_true_iff, startswith_prefix, IH. split.
    + intros [[t Ht] | (a & b & ->)]; [by exists [], t | by exists (c :: a), b].
    + intros (a & b & H). destruct a as [|c' a].
      * left. by exists b.
      * right. injection H as -> ->. by exists a, b.
Qed.

Lemma contains_app_intro (p a r b : text) :
  contains p r = true -> contains p (a ++ r ++ b) = true.
Proof.
  intros (x & y & ->)%contains_occurs. apply contains_occurs.
  exists (a ++ x), (y ++ b). by rewrite <- !app_assoc.
Qed.

Lemma contains_longer (p q s : text) :
  contains (p ++ q) s = true -> contains p s = true.
Proof.
  intros (a & b & ->)%contains_occurs. apply contains_occurs.
  exists a, (q ++ b). by rewrite <- app_assoc.
Qed.

Lemma contains_cons_false (p : text) (c : N) (s : text) :
  contains p (c :: s) = false ->
  startswith p (c :: s) = false /\ contains p s = false.
Proof. simpl. by intros [? ?]%orb_false_iff. Qed.

(* ===================================================================== *)
(** ** [str.replace] with a non-empty pattern *)
(* ===================================================================== *)

Section Replace.

Variables old new : text.
Hypothesis old_nonempty : old <> [].

Lemma replace_scan (s : text) : replace old new s = scan old new s.
Proof using old_nonempty. unfold replace, scan. by destruct old. Qed.

Lemma replace_from_skip (s : text) (k : nat) :
  replace_from old new s k = scan old new (drop k s).
Proof.
  revert k. induction s as [|c s IH]; intros k.
  - by destruct k.
  - destruct k as [|k]; [done |]. simpl. apply IH.
Qed.

Lemma scan_miss (c : N) (s : text) :
  startswith old (c :: s) = false -> scan old new (c :: s) = c :: scan old new s.
Proof. unfold scan. simpl replace_from. by intros ->. Qed.

Lemma scan_cons (c : N) (s : text) :
  scan old new (c :: s) =
  if startswith old (c :: s) then new ++ replace_from old new s (length old - 1)
  else c :: scan old new s.
Proof. done. Qed.

Lemma old_length : length old = S (length old - 1).
Proof using old_nonempty.
  pose proof (nil_length_inv old). destruct (length old); [tauto | lia].
Qed.

Lemma scan_hit (t : text) : scan old new (old ++ t) = new ++ scan old new t.
Proof using old_nonempty.
  pose proof (drop_app_length old t) as Hd.
  pose proof (startswith_app old t) as Hs.
  remember (old ++ t) as s0 eqn:H. destruct s0 as [|c s'].
  { symmetry in H. apply app_eq_nil in H as [? _]. done. }
  rewrite scan_cons, Hs, replace_from_skip.
  rewrite old_length in Hd. simpl in Hd. by rewrite Hd.
Qed.

(** Induction along the scan: nothing left, an occurrence, or a character
    that starts no occurrence. *)
Lemma scan_ind (P : text -> text -> Prop) :
  P [] [] ->
  (forall t, P t (scan old new t) -> P (old ++ t) (new ++ scan old new t)) ->
  (forall c s, startswith old (c :: s) = false ->
               P s (scan old new s) -> P (c :: s) (c :: scan old new s)) ->
  forall s, P s (scan old new s).
Proof using old_nonempty.
  intros Hnil Hhit Hmiss s.
  remember (length s) as n eqn:Hn. revert s Hn.
  induction n as [n IH] using lt_wf_ind. intros s Hn.
  destruct s as [|c s]; [done |].
  destruct (startswith old (c :: s)) eqn:E.
  - apply startswith_prefix in E as [t E]. rewrite E, scan_hit.
    apply Hhit. apply (IH (length t)); [| done].
    subst n. rewrite E, length_app, old_length. lia.
  - rewrite scan_miss by done. apply Hmiss; [done |].
    apply (IH (length s)); [subst n; simpl; lia | done].
Qed.

(** Nothing to replace: the text comes back as it is. *)
Lemma scan_absent (s : text) : contains old s = false -> scan old new s = s.
Proof.
  induction s as [|c s IH]; [done |].
  intros [Hs Hc]%contains_cons_false.
  rewrite scan_miss by done. by rewrite IH.
Qed.

Lemma scan_app_boundary (q : text) :
  no_straddle old q = true ->
  forall b a, scan old new (a ++ q ++ b) = scan old new a ++ scan old new (q ++ b).
Proof using old_nonempty.
  intros Hq b a. pattern a, (scan old new a). apply scan_ind; clear a.
  - done.
  - intros t IH. rewrite <- !app_assoc, scan_hit. by rewrite IH.
  - intros c s Hmiss IH.
    assert (startswith old ((c :: s) ++ q ++ b) = false) as Hm.
    { destruct (startswith old ((c :: s) ++ q ++ b)) eqn:E; [| done].
      destruct (startswith_app_inv _ _ _ E) as [Hl | (v & Hv & Hne & Hs)].
      - congruence.
      - exfalso. unfold no_straddle in Hq.
        rewrite forallb_forall in Hq. specialize (Hq v).
        rewrite Hv in Hq. simpl in Hq.
        rewrite (startswith_app_comparable _ _ _ Hs) in Hq.
        by specialize (Hq (nonempty_tails_app _ _ Hne)). }
    change ((c :: s) ++ q ++ b) with (c :: (s ++ q ++ b)) in *.
    rewrite scan_miss by done. by rewrite IH.
Qed.

Lemma scan_through (b : text) (q : text) :
  no_inner_match old q = true -> scan old new (q ++ b) = q ++ scan old new b.
Proof.
  unfold no_inner_match. induction q as [|c q IH]; [done |].
  simpl. intros [Hc Hq]%andb_true_iff.
  assert (startswith old (c :: q ++ b) = false) as Hm.
  { destruct (startswith old (c :: q ++ b)) eqn:E; [| done].
    apply (startswith_app_comparable _ (c :: q) b) in E.
    by rewrite E in Hc. }
  rewrite scan_miss by done. by rewrite IH.
Qed.

(** An occurrence of [q] that [old] cannot touch is still there after the
    replacement. *)
Lemma scan_keeps (q : text) :
  no_straddle old q = true -> no_inner_match old q = true ->
  forall s, contains q s = true -> contains q (scan old new s) = true.
Proof using old_nonempty.
  intros H1 H2 s (a & b & ->)%contains_occurs.
  rewrite scan_app_boundary, scan_through by done.
  apply contains_occurs. by exists (scan old new a), (scan old new b).
Qed.

Lemma tails_avoid_cons (c : N) (x y : text) :
  tails_avoid (c :: x) y = true -> tails_avoid x y = true.
Proof. unfold tails_avoid. simpl. by intros [_ ?]%andb_true_iff. Qed.

(** When [new] and [old] cannot overlap, what the output starts with, the
    input started with. *)
Lemma scan_startswith_back (s : text) :
  forall x, tails_avoid x new = true ->
            startswith x (scan old new s) = true -> startswith x s = true.
Proof using old_nonempty.
  pattern s, (scan old new s). apply scan_ind; clear s.
  - intros x _ H. by destruct x.
  - intros t _ x Hx H. destruct x as [|c x]; [done |].
    apply startswith_app_comparable in H.
    unfold tails_avoid in Hx. simpl in Hx. by rewrite H in Hx.
  - intros c s _ IH x Hx H. destruct x as [|c' x]; [done |].
    simpl in *. apply andb_true_iff in H as [-> H]. simpl.
    apply IH; [| done]. by eapply tails_avoid_cons.
Qed.

Lemma contains_skip (n o : text) :
  no_inner_match old n = true -> contains old (n ++ o) = contains old o.
Proof.
  unfold no_inner_match. induction n as [|c n IH]; [done |].
  simpl. intros [Hc Hn]%andb_true_iff. rewrite IH by done.
  destruct (startswith old (c :: n ++ o)) eqn:E; [| done].
  apply (startswith_app_comparable _ (c :: n) o) in E. by rewrite E in Hc.
Qed.

(** After the replacement no occurrence of [old] is left, provided [old]
    and [new] cannot overlap. *)
Lemma scan_removes_all :
  tails_avoid old new = true -> no_inner_match old new = true ->
  forall s, contains old (scan old new s) = false.
Proof using old_nonempty.
  intros Ha Hb s. pattern s, (scan old new s). apply scan_ind; clear s.
  - simpl. rewrite orb_false_r. destruct (startswith old []) eqn:E; [| done].
    apply startswith_length in E. rewrite old_length in E. simpl in E. lia.
  - intros t IH. by rewrite contains_skip.
  - intros c s Hmiss IH. simpl. rewrite IH, orb_false_r.
    destruct (startswith old (c :: scan old new s)) eqn:E; [| done].
    pose proof (scan_miss c s Hmiss) as Hs. rewrite <- Hs in E.
    apply scan_startswith_back in E; [congruence | done].
Qed.

End Replace.

(* ===================================================================== *)
(** ** fix_simple.py: the call [.Process(f, c)] *)
(* ===================================================================== *)

Module FixSimpleFacts.
Import FixSimple.

Lemma step1_keeps_call (content : text) :
  contains process_call content = true -> contains process_call (step1 content) = true.
Proof.
  unfold step1. rewrite replace_scan by lit_nonempty.
  apply scan_keeps; [lit_nonempty | by_evaluation | by_evaluation].
Qed.

Lemma step2_on_call (a b : text) :
  step2 (a ++ process_call ++ b) =
  step2 a ++ render_prefix ++ lit " c)" ++ step2 b.
Proof.
  unfold step2. rewrite !replace_scan by lit_nonempty.
  change process_call with (process_call_prefix ++ lit " c)"). rewrite <- app_assoc.
  rewrite scan_app_boundary; [| lit_nonempty | by_evaluation].
  rewrite scan_hit by lit_nonempty.
  rewrite scan_through by by_evaluation.
  done.
Qed.

Lemma step2_leaves_no_call (s : text) : contains process_call (step2 s) = false.
Proof.
  destruct (contains process_call (step2 s)) eqn:E; [| done].
  change process_call with (process_call_prefix ++ lit " c)") in E.
  apply contains_longer in E.
  unfold step2 in E. rewrite replace_scan in E by lit_nonempty.
  rewrite scan_removes_all in E; [done | lit_nonempty | by_evaluation | by_evaluation].
Qed.

Lemma step4_keeps_dangling (s : text) :
  contains dangling_canvas s = true -> contains dangling_canvas (step4 s) = true.
Proof.
  unfold step4. rewrite replace_scan by lit_nonempty.
  apply scan_keeps; [lit_nonempty | by_evaluation | by_evaluation].
Qed.

Lemma step5_keeps_dangling (s : text) :
  contains dangling_canvas s = true -> contains dangling_canvas (step5 s) = true.
Proof.
  unfold step5. rewrite replace_scan by lit_nonempty.
  apply scan_keeps; [lit_nonempty | by_evaluation | by_evaluation].
Qed.

End FixSimpleFacts.

(** C10.  In fix_simple.py, on every content that holds [.Process(f, c)]:
    the replacement of the prefix [.Process(f,] rewrites the call, so that
    no [.Process(f, c)] is left for the third replacement, which changes
    nothing; the text [Canvas =  c)] (two spaces, no closing brace) that
    this leaves is matched by neither of the two last replacements and is
    still in the content that is written. *)
Theorem fix_simple_process_call_left_open (content : text) :
  contains (lit ".Process(f, c)") content = true ->
  let s2 := FixSimple.step2 (FixSimple.step1 content) in
  contains (FixSimple.render_prefix ++ lit " c)") s2 = true
  /\ contains (lit ".Process(f, c)") s2 = false
  /\ FixSimple.step3 s2 = s2
  /\ contains (lit "Canvas =  c)") (FixSimple.transform content) = true.
Proof.
  intros H s2.
  apply FixSimpleFacts.step1_keeps_call in H.
  apply contains_occurs in H as (a & b & E1).
  assert (s2 = FixSimple.step2 a ++ FixSimple.render_prefix ++ lit " c)"
               ++ FixSimple.step2 b) as E2.
  { unfold s2. rewrite E1. apply FixSimpleFacts.step2_on_call. }
  assert (contains (lit ".Process(f, c)") s2 = false) as Hgone
    by apply FixSimpleFacts.step2_leaves_no_call.
  assert (FixSimple.step3 s2 = s2) as E3.
  { unfold FixSimple.step3. rewrite replace_scan by lit_nonempty.
    by apply scan_absent. }
  split; [| split; [done | split; [done |]]].
  - rewrite E2. apply contains_occurs.
    exists (FixSimple.step2 a), (FixSimple.step2 b). by rewrite <- app_assoc.
  - unfold FixSimple.transform. fold s2. rewrite E3.
    apply FixSimpleFacts.step5_keeps_dangling, FixSimpleFacts.step4_keeps_dangling.
    rewrite E2. rewrite (app_assoc _ (lit " c)")).
    apply contains_app_intro. by_evaluation.
Qed.

Lemma fix_simple_process_call_left_open_witness :
  contains (lit ".Process(f, c)") (lit "node.Process(f, c);") = true
  /\ contains (lit "Canvas =  c)")
       (FixSimple.transform (lit "node.Process(f, c);")) = true.
Proof.
  split; [vm_compute; reflexivity |].
  apply (fix_simple_process_call_left_open (lit "node.Process(f, c);")).
  vm_compute. reflexivity.
Defined.

(* ===================================================================== *)
(** ** The matcher and the texts a pattern stands for *)
(* ===================================================================== *)

Lemma star_sound (p : N -> bool) (k : text -> option text) (s r : text) :
  star p k s = Some r ->
  exists w s', s = w ++ s' /\ Forall (fun c => p c = true) w /\ k s' = Some r.
Proof.
  induction s as [|c s IH]; simpl.
  - intros H. by exists [], [].
  - destruct (p c) eqn:Hp.
    + destruct (star p k s) as [r'|] eqn:E.
      * intros [= ->]. destruct (IH eq_refl) as (w & s' & -> & Hw & Hk).
        exists (c :: w), s'. repeat split; [by constructor | done].
      * intros H. by exists [], (c :: s).
    + intros H. by exists [], (c :: s).
Qed.

Lemma match_here_sound (pat : pattern) :
  forall s r, match_here pat s = Some r -> exists m, s = m ++ r /\ lang pat m r.
Proof.
  induction pat as [|it pat IH]; intros s r; simpl.
  - intros [= ->]. exists []. split; [done | constructor].
  - destruct it as [l | p |].
    + destruct (startswith l s) eqn:E; [| done]. intros H.
      destruct (IH _ _ H) as (m & Hm & Hl).
      exists (l ++ m). split; [| by constructor].
      rewrite <- app_assoc, <- Hm. by apply startswith_drop.
    + intros H. destruct (star_sound _ _ _ _ H) as (w & s' & -> & Hw & Hk).
      destruct (IH _ _ Hk) as (m & -> & Hl).
      exists (w ++ m). split; [by rewrite app_assoc | by constructor].
    + destruct (at_end s) eqn:E; [| done]. intros H.
      destruct (IH _ _ H) as (m & -> & Hl).
      exists m. split; [done | by constructor].
Qed.

Lemma match_here_suffix (pat : pattern) (s r : text) :
  match_here pat s = Some r ->
  length r <= length s /\ drop (length s - length r) s = r.
Proof.
  intros (m & -> & _)%match_here_sound. rewrite length_app.
  replace (length m + length r - length r) with (length m) by lia.
  split; [lia | apply drop_app_length].
Qed.

Lemma lang_app_inv (p1 p2 : pattern) :
  forall m r, lang (p1 ++ p2) m r ->
  exists m1 m2, m = m1 ++ m2 /\ lang p1 m1 (m2 ++ r) /\ lang p2 m2 r.
Proof.
  induction p1 as [|it p1 IH]; intros m r H; simpl in H.
  - exists [], m. repeat split; [constructor | done].
  - inversion H as [| l pat m' r' Hl | p pat w m' r' Hw Hl | pat m' r' He Hl];
      subst; destruct (IH _ _ Hl) as (m1 & m2 & -> & H1 & H2).
    + exists (l ++ m1), m2. rewrite app_assoc. repeat split; [by constructor | done].
    + exists (w ++ m1), m2. rewrite app_assoc. repeat split; [by constructor | done].
    + exists m1, m2. repeat split; [| done].
      constructor; [by rewrite app_assoc | done].
Qed.







(** A pattern that is found leaves its replacement in the result. *)
Lemma sub_puts_replacement (pat : pattern) (repl s : text) (i : nat) :
  is_found (search_from pat s i) = true ->
  exists a b, sub pat repl s = a ++ repl ++ b.
Proof.
  revert i. induction s as [|c s IH]; intros i; unfold sub; simpl.
  - destruct (match_here pat []); [| done]. intros _.
    exists [], []. by rewrite app_nil_r.
  - destruct (match_here pat (c :: s)) as [rest|] eqn:E.
    + intros _. destruct (length (c :: s) - length rest) eqn:En.
      * simpl in En. rewrite En. by exists [], (c :: sub_from pat repl s 0).
      * simpl in En. rewrite En. by exists [], (sub_from pat repl s n).
    + intros H. destruct (IH _ H) as (a & b & Hs).
      exists (c :: a), b. unfold sub in Hs. by rewrite Hs.
Qed.

(** What [re.search] answers is a span of the text on which the pattern
    does match. *)
Lemma search_from_span (pat : pattern) (s : text) :
  forall i a b, search_from pat s i = Some (a, b) ->
  exists k, a = i + k /\ a <= b /\ b <= i + length s /\
            match_here pat (drop k s) = Some (drop (b - i) s).
Proof.
  induction s as [|c s IH]; intros i a b; simpl.
  - destruct (match_here pat []) as [rest|] eqn:E; [| done].
    intros [= <- <-]. exists 0.
    destruct (match_here_suffix _ _ _ E) as [Hl Hd]. simpl in Hl.
    assert (rest = []) as -> by (destruct rest; [done | simpl in Hl; lia]).
    simpl. repeat split; try lia. rewrite E. by rewrite drop_nil.
  - destruct (match_here pat (c :: s)) as [rest|] eqn:E.
    + intros [= <- <-]. exists 0.
      destruct (match_here_suffix _ _ _ E) as [Hl Hd]. simpl in Hl, Hd.
      repeat split; try lia.
      simpl drop at 1. rewrite E. f_equal.
      replace (i + (S (length s) - length rest) - i)
        with (S (length s) - length rest) by lia.
      by rewrite Hd.
    + intros H. destruct (IH _ _ _ H) as (k & -> & Hab & Hb & Hm).
      exists (S k). repeat split; try lia.
      simpl drop at 1. rewrite Hm. f_equal.
      replace (b - i) with (S (b - S i)) by lia. done.
Qed.

Lemma search_span (pat : pattern) (s : text) (i j : nat) :
  search pat s = Some (i, j) ->
  i <= j /\ j <= length s /\ match_here pat (drop i s) = Some (drop j s).
Proof.
  intros H. destruct (search_from_span _ _ _ _ _ H) as (k & -> & ? & ? & Hm).
  simpl in *. rewrite Nat.sub_0_r in Hm. by repeat split.
Qed.

Lemma match_here_lit (l : text) (pat : pattern) (s : text) :
  match_here (Lit l :: pat) s =
  if startswith l s then match_here pat (drop (length l) s) else None.
Proof. done. Qed.

Lemma match_here_nonempty (pat : pattern) (s r : text) :
  starts_with_literal pat = true ->
  match_here pat s = Some r -> length r < length s.
Proof.
  destruct pat as [|[[|c l] | |] pat]; try done. intros _.
  rewrite match_here_lit.
  destruct (startswith (c :: l) s) eqn:E; [| done].
  intros [Hl _]%match_here_suffix.
  apply startswith_drop in E. rewrite length_drop in Hl.
  apply (f_equal length) in E. rewrite length_app in E. simpl in *. lia.
Qed.


(* ===================================================================== *)
(** ** The matchers of the catalog *)
(* ===================================================================== *)

Lemma search_from_none (pat : pattern) (s : text) :
  forall i, search_from pat s i = None ->
  forall k, match_here pat (drop k s) = None.
Proof.
  induction s as [|c s IH]; intros i; simpl.
  - destruct (match_here pat []) eqn:E; [done |]. intros _ k.
    by rewrite drop_nil.
  - destruct (match_here pat (c :: s)) eqn:E; [done |]. intros H k.
    destruct k as [|k]; [done |]. simpl. by eapply IH.
Qed.

Lemma search_from_leftmost (pat : pattern) (s : text) :
  forall i a b, search_from pat s i = Some (a, b) ->
  forall k, i + k < a -> match_here pat (drop k s) = None.
Proof.
  induction s as [|c s IH]; intros i a b; simpl.
  - destruct (match_here pat []) eqn:E; [| done]. intros [= <- <-] k. lia.
  - destruct (match_here pat (c :: s)) eqn:E.
    + intros [= <- <-] k. lia.
    + intros H k Hk. destruct k as [|k]; [done |]. simpl.
      eapply IH; [exact H | lia].
Qed.

Lemma search_well_answered (pat : pattern) (s : text) :
  starts_with_literal pat = true -> well_answered pat s.
Proof.
  intros Hp. unfold well_answered.
  destruct (search pat s) as [[i j]|] eqn:E; [right | left].
  - destruct (search_span _ _ _ _ E) as (Hij & Hj & Hm).
    exists i, j. repeat split; try done.
    + pose proof (match_here_nonempty _ _ _ Hp Hm) as Hl.
      rewrite !length_drop in Hl. lia.
    + intros k Hk. by eapply (search_from_leftmost pat s 0).
  - split; [done |]. by eapply search_from_none.
Qed.

(** C9.  Every matcher of the catalog is a total function of the text: on
    the empty text it answers no match, and on any text at all, well formed
    or not, it answers no match (and the pattern matches nowhere) or the
    leftmost span of that text on which its pattern matches. *)
Theorem matchers_total :
  Forall (fun pat => search pat [] = None /\ forall s, well_answered pat s)
         catalog.
Proof.
  unfold catalog. simpl.
  repeat (constructor;
          [split; [by_evaluation
                  | intros s; apply search_well_answered; by_evaluation] |]).
  constructor.
Qed.

(* ===================================================================== *)
(** ** fix.py: where a method pattern stops *)
(* ===================================================================== *)

Lemma body_items_lang (m r : text) :
  lang Fix.body_items m r ->
  exists ws body,
    m = ws ++ [Fix.LBRACE] ++ body ++ [Fix.RBRACE]
    /\ Forall (fun c => isspace c = true) ws
    /\ Forall (fun c => c <> Fix.RBRACE) body.
Proof.
  unfold Fix.body_items. intros H.
  inversion H as [| | p1 pat1 ws m1 r1 Hws H1 |]; subst.
  inversion H1 as [| l2 pat2 m2 r2 H2 | |]; subst.
  inversion H2 as [| | p3 pat3 body m3 r3 Hbody H3 |]; subst.
  inversion H3 as [| l4 pat4 m4 r4 H4 | |]; subst.
  inversion H4; subst.
  exists ws, body. repeat split; [done |].
  eapply Forall_impl; [exact Hbody |].
  intros c Hc ->. unfold Fix.not_char in Hc. by rewrite N.eqb_refl in Hc.
Qed.

(** C5, as the code has it.  A method pattern (a signature followed by
    [\s*\{[^}]*\}]) that matches at the start of a text takes the signature,
    white space, the opening brace, a body without any closing brace, and
    that closing brace: the match stops at the first closing brace after the
    opening one, also when the body nests braces. *)
Theorem method_match_stops_at_first_closing_brace
    (sig : pattern) (s rest : text) :
  match_here (sig ++ Fix.body_items) s = Some rest ->
  exists head ws body,
    s = head ++ ws ++ [Fix.LBRACE] ++ body ++ [Fix.RBRACE] ++ rest
    /\ lang sig head (ws ++ [Fix.LBRACE] ++ body ++ [Fix.RBRACE] ++ rest)
    /\ Forall (fun c => isspace c = true) ws
    /\ Forall (fun c => c <> Fix.RBRACE) body.
Proof.
  intros (m & -> & Hl)%match_here_sound.
  apply lang_app_inv in Hl as (head & m2 & -> & Hsig & Hbody).
  apply body_items_lang in Hbody as (ws & body & -> & Hws & Hb).
  exists head, ws, body. repeat split; try done.
  - by rewrite <- !app_assoc.
  - by rewrite <- !app_assoc in Hsig.
Qed.

Lemma method_match_stops_at_first_closing_brace_witness :
  match_here (Fix.process_frame_sig ++ Fix.body_items) nested_method
    = Some (lit " c(); }")
  /\ exists head ws body,
       nested_method
         = head ++ ws ++ [Fix.LBRACE] ++ body ++ [Fix.RBRACE] ++ lit " c(); }"
       /\ lang Fix.process_frame_sig head
            (ws ++ [Fix.LBRACE] ++ body ++ [Fix.RBRACE] ++ lit " c(); }")
       /\ Forall (fun c => isspace c = true) ws
       /\ Forall (fun c => c <> Fix.RBRACE) body.
Proof.
  split; [vm_compute; reflexivity |].
  apply (method_match_stops_at_first_closing_brace
           Fix.process_frame_sig nested_method (lit " c(); }")).
  vm_compute. reflexivity.
Defined.

(** C5 as stated fails: on a method whose body nests braces the match ends
    at position 58, inside the body, while the nesting returns to depth zero
    only at position 65; the replacement leaves the tail of the old body. *)
Lemma nested_body_is_cut_short :
  search Fix.process_frame_pattern nested_method = Some (0, 58)
  /\ balanced_stop nested_method = Some 65
  /\ sub Fix.process_frame_pattern Fix.process_core_text nested_method
     = Fix.process_core_text ++ lit " c(); }".
Proof. repeat split; vm_compute; reflexivity. Qed.

(* ===================================================================== *)
(** ** fix.py: how many method blocks a rule replaces *)
(* ===================================================================== *)







(* ===================================================================== *)
(** ** Runs of the scripts on one file *)
(* ===================================================================== *)

Lemma untouched_refl (w : world) : untouched w w.
Proof. split; [done |]. exists []. by rewrite app_nil_r. Qed.

Lemma string_length_append (a b : string) :
  String.length (String.append a b) = String.length a + String.length b.
Proof. induction a as [|c a IH]; simpl; [done | by rewrite IH]. Qed.

Lemma backup_of_ne (p : string) : p <> Fix.backup_of p.
Proof.
  intros E. apply (f_equal String.length) in E.
  unfold Fix.backup_of in E. rewrite string_length_append in E.
  simpl in E. lia.
Qed.

Lemma fix_effect_file_improved_run (w : world) (p : string) :
  fix_run w p (Fix.fix_effect_file_improved p w).
Proof.
  unfold Fix.fix_effect_file_improved, bind, read.
  destruct (files w !! p) as [orig|] eqn:Hf; [| by constructor].
  destruct (noread w p) eqn:Hr; [by econstructor |].
  unfold text_eqb. case_bool_decide as Ht.
  { unfold print, ret. simpl. by econstructor. }
  unfold copy2. simpl. rewrite Hf.
  rewrite bool_decide_eq_false_2 by apply backup_of_ne.
  rewrite Hr.
  destruct (nowrite w (Fix.backup_of p)) eqn:Hb; [by econstructor |].
  unfold write. simpl.
  destruct (nowrite w p) eqn:Hw; [by econstructor |].
  unfold Fix.verify_file_structure, bind, read, print, ret. simpl.
  rewrite lookup_insert_eq, Hr. simpl.
  by apply fix_changed.
Qed.

Lemma log_verified (p : string) (orig new : text) (w : world) :
  log (verified p orig new w)
  = log w ++ [EvRead p; EvCopy p (Fix.backup_of p); EvWrite p new;
              EvRead p; EvPrint (MsgStructure (Fix.structure_issues new))].
Proof. unfold verified, written, backed_up. simpl. by rewrite <- !app_assoc. Qed.

Lemma files_verified (p : string) (orig new : text) (w : world) :
  files (verified p orig new w)
  = <[p := new]> (<[Fix.backup_of p := orig]> (files w)).
Proof. done. Qed.

Lemma backup_in_verified (p : string) (orig new : text) (w : world) :
  files (verified p orig new w) !! Fix.backup_of p = Some orig.
Proof.
  rewrite files_verified, lookup_insert_ne by apply backup_of_ne.
  apply lookup_insert_eq.
Qed.

Lemma write_after_backup_none (evs : list event) :
  forallb (fun ev => negb (is_write ev)) evs = true -> write_after_backup evs.
Proof.
  intros H i q c Hi. rewrite forallb_forall in H.
  apply list_elem_of_lookup_2, list_elem_of_In in Hi. by apply H in Hi.
Qed.

Lemma write_after_backup_app (a b : list event) :
  write_after_backup a -> write_after_backup b -> write_after_backup (a ++ b).
Proof.
  intros Ha Hb i q c Hi.
  destruct (decide (i < length a)) as [Hlt | Hge].
  - rewrite lookup_app_l in Hi by done.
    destruct (Ha _ _ _ Hi) as (j & -> & Hj). exists j. split; [done |].
    rewrite lookup_app_l by lia. done.
  - rewrite lookup_app_r in Hi by lia.
    destruct (Hb _ _ _ Hi) as (j & Hij & Hj). exists (length a + j).
    split; [lia |]. rewrite lookup_app_r by lia.
    by replace (length a + j - length a) with j by lia.
Qed.

Lemma write_after_backup_changed (p : string) (new : text) (m : message) :
  write_after_backup
    [EvRead p; EvCopy p (Fix.backup_of p); EvWrite p new; EvRead p; EvPrint m].
Proof.
  intros i q c Hi.
  destruct i as [|[|[|[|[|i]]]]]; simpl in Hi; try discriminate.
  injection Hi as -> ->. by exists 1.
Qed.

Lemma fix_run_log (w : world) (p : string) (out : result bool * world) :
  fix_run w p out ->
  exists evs, log (snd out) = log w ++ evs /\ write_after_backup evs.
Proof.
  intros H. destruct H; simpl.
  - exists []. split; [by rewrite app_nil_r | by apply write_after_backup_none].
  - exists []. split; [by rewrite app_nil_r | by apply write_after_backup_none].
  - exists [EvRead p; EvPrint MsgNoChanges].
    split; [by rewrite <- app_assoc | by apply write_after_backup_none].
  - exists [EvRead p]. split; [done | by apply write_after_backup_none].
  - exists [EvRead p; EvCopy p (Fix.backup_of p)].
    split; [by rewrite <- app_assoc | by apply write_after_backup_none].
  - eexists. split; [apply (log_verified p orig) | apply write_after_backup_changed].
Qed.

Lemma process_log (p : string) (w : world) :
  exists evs, log (snd (Fix.process p w)) = log w ++ evs
              /\ write_after_backup evs.
Proof.
  unfold Fix.process, bind, exists_.
  destruct (is_found (files w !! p)).
  - destruct (fix_run_log _ _ _ (fix_effect_file_improved_run w p))
      as (evs & Hl & Hg).
    destruct (Fix.fix_effect_file_improved p w) as [[b | e] w1]; simpl in *.
    + exists (evs ++ [EvPrint (if b then MsgFixed p else MsgNoChangesNeeded p)]).
      split.
      * destruct b; simpl; by rewrite Hl, <- app_assoc.
      * apply write_after_backup_app; [done |].
        apply write_after_backup_none. by destruct b.
    + by exists evs.
  - exists [EvPrint (MsgNotFound p)].
    split; [done | by apply write_after_backup_none].
Qed.

Lemma batch_log (ps : list string) :
  forall w, exists evs, log (snd (Fix.batch ps w)) = log w ++ evs
                        /\ write_after_backup evs.
Proof.
  unfold Fix.batch. induction ps as [|p ps IH]; intros w; simpl.
  - exists []. split; [by rewrite app_nil_r | by apply write_after_backup_none].
  - unfold bind. destruct (process_log p w) as (e1 & H1 & G1).
    destruct (Fix.process p w) as [[[] | e] w1]; simpl in *.
    + destruct (IH w1) as (e2 & H2 & G2). exists (e1 ++ e2).
      split; [by rewrite H2, H1, <- app_assoc |].
      by apply write_after_backup_app.
    + by exists e1.
Qed.

(** C1, as the code has it.  In fix.py a file is written only right after
    [shutil.copy2] has copied it, as it was on disk, to its [.backup]
    sibling, and that backup still holds the original content when the call
    is over; this holds for every file of a batch.  (The three other scripts
    make no backup at all.) *)
Theorem fix_backs_up_before_writing :
  (forall (w : world) (p : string),
     let w' := snd (Fix.fix_effect_file_improved p w) in
     exists evs, log w' = log w ++ evs /\
       forall i q c, evs !! i = Some (EvWrite q c) ->
         q = p
         /\ (exists j, i = S j /\ evs !! j = Some (EvCopy p (Fix.backup_of p)))
         /\ exists orig, files w !! p = Some orig
                         /\ c = Fix.transform orig
                         /\ files w' !! Fix.backup_of p = Some orig)
  /\ (forall (ps : list string) (w : world),
        exists evs, log (snd (Fix.batch ps w)) = log w ++ evs
                    /\ write_after_backup evs).
Proof.
  split; [| intros ps w; apply batch_log].
  intros w p w'. subst w'.
  destruct (fix_effect_file_improved_run w p); simpl.
  - exists []. split; [by rewrite app_nil_r | by intros []].
  - exists []. split; [by rewrite app_nil_r | by intros []].
  - exists [EvRead p; EvPrint MsgNoChanges].
    split; [by rewrite <- app_assoc | by intros [|[|[]]]].
  - exists [EvRead p]. split; [done | by intros [|[]]].
  - exists [EvRead p; EvCopy p (Fix.backup_of p)].
    split; [by rewrite <- app_assoc | by intros [|[|[]]]].
  - eexists. split; [apply (log_verified p orig) |].
    intros i q c Hi.
    destruct i as [|[|[|[|[|i]]]]]; simpl in Hi; try discriminate.
    injection Hi as <- <-. split; [done |]. split; [by exists 1 |].
    exists orig. split; [done |]. split; [done |].
    apply backup_in_verified.
Qed.

Lemma fix_backs_up_before_writing_witness :
  exists evs,
    log (snd (Fix.fix_effect_file_improved "Effect.cs"
                (one_file "Effect.cs" (lit "int x;")))) = [] ++ evs
    /\ evs !! 2 = Some (EvWrite "Effect.cs"%string (lit "int x;" ++ [LF]))
    /\ evs !! 1
       = Some (EvCopy "Effect.cs"%string (Fix.backup_of "Effect.cs"))
    /\ files (snd (Fix.fix_effect_file_improved "Effect.cs"
                     (one_file "Effect.cs" (lit "int x;"))))
         !! Fix.backup_of "Effect.cs" = Some (lit "int x;").
Proof.
  destruct (proj1 fix_backs_up_before_writing
              (one_file "Effect.cs" (lit "int x;")) "Effect.cs"%string)
    as (evs & Hlog & Hw).
  exists evs. split; [exact Hlog |].
  assert (evs = [EvRead "Effect.cs"%string;
                 EvCopy "Effect.cs"%string (Fix.backup_of "Effect.cs");
                 EvWrite "Effect.cs"%string (lit "int x;" ++ [LF]);
                 EvRead "Effect.cs"%string;
                 EvPrint (MsgStructure [NoClosingBrace])]) as E.
  { vm_compute in Hlog. vm_compute. symmetry. exact Hlog. }
  split; [by rewrite E |]. split; [by rewrite E |].
  assert (evs !! 2 = Some (EvWrite "Effect.cs"%string (lit "int x;" ++ [LF])))
    as H2 by (by rewrite E).
  destruct (Hw _ _ _ H2) as (_ & _ & orig & Ho & _ & Hb).
  vm_compute in Ho. injection Ho as <-. exact Hb.
Defined.

(** C1 as stated fails in fix_all_node_canvas_conversions.py: the file is
    written, nothing was copied before, and no backup exists afterwards. *)
Lemma canvas_conversion_writes_without_backup :
  log (snd (CanvasConversions.fix_node_file "Node.cs"
              (one_file "Node.cs" (lit "Canvas = canvas)"))))
  = [EvRead "Node.cs"%string;
     EvWrite "Node.cs"%string (lit "Canvas = new SkiaCanvasAdapter(canvas))");
     EvPrint (MsgFixed "Node.cs")]
  /\ files (snd (CanvasConversions.fix_node_file "Node.cs"
                   (one_file "Node.cs" (lit "Canvas = canvas)"))))
       !! Fix.backup_of "Node.cs" = None
  /\ ~ write_after_backup
        (log (snd (CanvasConversions.fix_node_file "Node.cs"
                     (one_file "Node.cs" (lit "Canvas = canvas)"))))).
Proof.
  split; [by_evaluation |]. split; [by_evaluation |].
  intros H.
  destruct (H 1 "Node.cs"%string
              (lit "Canvas = new SkiaCanvasAdapter(canvas))"))
    as (j & Hj & Hc); [by_evaluation |].
  injection Hj as <-. vm_compute in Hc. discriminate Hc.
Qed.

(* ===================================================================== *)
(** ** fix.py: the verifier and the decision to write *)
(* ===================================================================== *)

Lemma structure_issues_independent (c : text) :
  (In IncompleteConfigurationRegion (Fix.structure_issues c) <->
     contains (lit "#region Configuration" ++ [LF; LF; LF; LF] ++ lit "#endregion") c
       = true)
  /\ (In NoClosingBrace (Fix.structure_issues c) <->
        endswith [Fix.RBRACE] (strip c) = false)
  /\ (forall r e, In (UnmatchedRegions r e) (Fix.structure_issues c) <->
        r = count (lit "#region") c /\ e = count (lit "#endregion") c /\ r <> e).
Proof.
  unfold Fix.structure_issues.
  generalize (count (lit "#region") c) (count (lit "#endregion") c).
  intros rc ec.
  split; [| split; [| intros r e]]; rewrite !in_app_iff;
    destruct (contains _ c); destruct (endswith _ (strip c));
    case_bool_decide as Hc; simpl;
    (intuition (try discriminate; try congruence)).
Qed.

(** C8.  When fix.py has changed the content of a file (and the backup and
    the write go through), the new content is on disk whatever the verifier
    finds: [verify_file_structure] runs after the write, reads the file
    back, reports each of its three checks independently of the two others,
    and the call returns [True]. *)
Theorem verifier_never_blocks_the_write (w : world) (p : string) (orig : text) :
  files w !! p = Some orig ->
  noread w p = false ->
  nowrite w (Fix.backup_of p) = false ->
  nowrite w p = false ->
  Fix.transform orig <> orig ->
  let new := Fix.transform orig in
  let out := Fix.fix_effect_file_improved p w in
  fst out = Ok true
  /\ files (snd out) !! p = Some new
  /\ log (snd out)
     = log w ++ [EvRead p; EvCopy p (Fix.backup_of p); EvWrite p new;
                 EvRead p; EvPrint (MsgStructure (Fix.structure_issues new))]
  /\ forall c,
       (In IncompleteConfigurationRegion (Fix.structure_issues c) <->
          contains (lit "#region Configuration" ++ [LF; LF; LF; LF]
                      ++ lit "#endregion") c = true)
       /\ (In NoClosingBrace (Fix.structure_issues c) <->
             endswith [Fix.RBRACE] (strip c) = false)
       /\ (forall r e, In (UnmatchedRegions r e) (Fix.structure_issues c) <->
             r = count (lit "#region") c /\ e = count (lit "#endregion") c
             /\ r <> e).
Proof.
  intros Hf Hr Hb Hw Hne new out. subst out new.
  destruct (fix_effect_file_improved_run w p); simpl; try congruence.
  assert (orig0 = orig) as -> by congruence.
  split; [done |]. split; [apply lookup_insert_eq |].
  split; [apply (log_verified p orig) | apply structure_issues_independent].
Qed.

Lemma verifier_never_blocks_the_write_witness :
  Fix.structure_issues (Fix.transform (lit "int x;")) = [NoClosingBrace]
  /\ fst (Fix.fix_effect_file_improved "Effect.cs"
            (one_file "Effect.cs" (lit "int x;"))) = Ok true
  /\ files (snd (Fix.fix_effect_file_improved "Effect.cs"
                   (one_file "Effect.cs" (lit "int x;"))))
       !! "Effect.cs"%string = Some (Fix.transform (lit "int x;")).
Proof.
  split; [vm_compute; reflexivity |].
  destruct (verifier_never_blocks_the_write
              (one_file "Effect.cs" (lit "int x;")) "Effect.cs"%string
              (lit "int x;"))
    as (H1 & H2 & _).
  - vm_compute. reflexivity.
  - reflexivity.
  - reflexivity.
  - reflexivity.
  - intros E. vm_compute in E. discriminate E.
  - split; [exact H1 | exact H2].
Defined.

Lemma apply_rule_unfired (pat : pattern) (repl : text) (st : text * bool) :
  snd (Fix.apply_rule pat repl st) = false -> Fix.apply_rule pat repl st = st.
Proof. unfold Fix.apply_rule. by destruct (is_found _). Qed.

(** When no rule fires, the five steps leave the content as it is. *)
Lemma rules_unfired (content : text) :
  Fix.changes_made content = false -> fst (Fix.rules content) = content.
Proof.
  unfold Fix.changes_made, Fix.rules. intros H.
  do 5 (let E := fresh "E" in
        pose proof (apply_rule_unfired _ _ _ H) as E;
        rewrite E in H |- *; clear E).
  done.
Qed.

(** C4, as the code has it.  fix.py decides on [content != original_content]
    after the normalization of step 5, not on [changes_made]: when no rule
    fires, the output is the content with its trailing white space replaced
    by one newline, and the file is backed up and written exactly when that
    differs from what was read. *)
Theorem normalization_alone_counts_as_change
    (w : world) (p : string) (orig : text) :
  files w !! p = Some orig ->
  noread w p = false ->
  nowrite w (Fix.backup_of p) = false ->
  nowrite w p = false ->
  Fix.changes_made orig = false ->
  let new := rstrip orig ++ [LF] in
  let out := Fix.fix_effect_file_improved p w in
  Fix.transform orig = new
  /\ (orig = new ->
      fst out = Ok false /\ files (snd out) = files w
      /\ log (snd out) = log w ++ [EvRead p; EvPrint MsgNoChanges])
  /\ (orig <> new ->
      fst out = Ok true
      /\ log (snd out)
         = log w ++ [EvRead p; EvCopy p (Fix.backup_of p); EvWrite p new;
                     EvRead p; EvPrint (MsgStructure (Fix.structure_issues new))]).
Proof.
  intros Hf Hr Hb Hw Hc new out.
  assert (Fix.transform orig = new) as Ht.
  { unfold Fix.transform. by rewrite rules_unfired. }
  split; [done |]. subst out.
  destruct (fix_effect_file_improved_run w p); simpl; try congruence;
    assert (orig0 = orig) as -> by congruence.
  - split; [intros _ | congruence].
    split; [done |]. split; [done |]. by rewrite <- app_assoc.
  - split; [congruence | intros _]. split; [done |].
    rewrite Ht. apply (log_verified p orig).
Qed.

Lemma normalization_alone_counts_as_change_witness :
  Fix.changes_made trailing_blanks = false
  /\ fst (Fix.fix_effect_file_improved "Effect.cs"
            (one_file "Effect.cs" trailing_blanks)) = Ok true.
Proof.
  split; [vm_compute; reflexivity |].
  destruct (normalization_alone_counts_as_change
              (one_file "Effect.cs" trailing_blanks) "Effect.cs"%string
              trailing_blanks)
    as (_ & _ & H).
  - vm_compute. reflexivity.
  - reflexivity.
  - reflexivity.
  - reflexivity.
  - vm_compute. reflexivity.
  - apply H. intros E. vm_compute in E. discriminate E.
Defined.

(** C4 as stated fails: a content that only has blanks and an extra newline
    after its last brace fires no rule, yet the call reports a change, makes
    a backup and writes the normalized text. *)
Lemma trailing_blanks_are_rewritten :
  Fix.changes_made trailing_blanks = false
  /\ Fix.transform trailing_blanks = lit "}" ++ [LF]
  /\ fst (Fix.fix_effect_file_improved "Effect.cs"
            (one_file "Effect.cs" trailing_blanks)) = Ok true
  /\ log (snd (Fix.fix_effect_file_improved "Effect.cs"
                 (one_file "Effect.cs" trailing_blanks)))
     = [EvRead "Effect.cs"%string;
        EvCopy "Effect.cs"%string "Effect.cs.backup"%string;
        EvWrite "Effect.cs"%string (lit "}" ++ [LF]);
        EvRead "Effect.cs"%string;
        EvPrint (MsgStructure [])].
Proof. repeat split; vm_compute; reflexivity. Qed.

(* ===================================================================== *)
(** ** Which scripts write an unchanged file *)
(* ===================================================================== *)

Lemma rewrite_file_run (g : text -> text) (p : string) (w : world) :
  rewrite_file g p w =
  match files w !! p with
  | None => (Raise (FileNotFoundError p), w)
  | Some c =>
      if noread w p then (Raise (PermissionError p), w)
      else if nowrite w p then (Raise (PermissionError p), emit (EvRead p) w)
      else (Ok tt, emit (EvWrite p (g c)) (store p (g c) (emit (EvRead p) w)))
  end.
Proof.
  unfold rewrite_file, bind, read, write.
  destruct (files w !! p); [| done].
  destruct (noread w p); [done |]. simpl. by destruct (nowrite w p).
Qed.

(** C2, as the code has it.  fix.py and fix_all_node_canvas_conversions.py
    write a file only when the content has changed: with an unchanged
    content no file is touched.  fix_simple.py and fix_braces.py keep no
    such flag: they write back what they computed in every case, also when
    it is the text they read. *)
Theorem write_only_where_change_is_tracked
    (w : world) (p : string) (orig : text) :
  files w !! p = Some orig ->
  (Fix.transform orig = orig ->
     untouched w (snd (Fix.fix_effect_file_improved p w)))
  /\ (CanvasConversions.changed orig = false ->
        untouched w (snd (CanvasConversions.fix_node_file p w)))
  /\ (noread w p = false -> nowrite w p = false ->
        log (snd (FixSimple.fix_node_file p w))
          = log w ++ [EvRead p; EvWrite p (FixSimple.transform orig)]
        /\ log (snd (FixBraces.fix_node_file p w))
          = log w ++ [EvRead p; EvWrite p (FixBraces.transform orig)]).
Proof.
  intros Hf. split; [| split].
  - intros Ht.
    destruct (fix_effect_file_improved_run w p); simpl;
      try apply untouched_refl; try congruence.
    split; [done |]. exists [EvRead p; EvPrint MsgNoChanges].
    split; [simpl; by rewrite <- ?app_assoc | done].
  - unfold CanvasConversions.changed, CanvasConversions.fix_node_file.
    unfold bind, read. rewrite Hf. intros Hc.
    destruct (noread w p); [apply untouched_refl |].
    destruct (CanvasConversions.first_fix CanvasConversions.patterns orig)
      as [content'|];
      destruct (contains CanvasConversions.adapter_name orig);
      try discriminate Hc; unfold print.
    all: split; [done |]; eexists; split;
      [simpl; by rewrite <- ?app_assoc | done].
  - intros Hr Hw.
    change (FixSimple.fix_node_file p) with (rewrite_file FixSimple.transform p).
    change (FixBraces.fix_node_file p) with (rewrite_file FixBraces.transform p).
    rewrite !rewrite_file_run, Hf, Hr, Hw. simpl.
    by rewrite <- !app_assoc.
Qed.

Lemma write_only_where_change_is_tracked_witness :
  untouched (one_file "Node.cs" settled)
    (snd (Fix.fix_effect_file_improved "Node.cs" (one_file "Node.cs" settled)))
  /\ untouched (one_file "Node.cs" settled)
       (snd (CanvasConversions.fix_node_file "Node.cs"
               (one_file "Node.cs" settled)))
  /\ log (snd (FixBraces.fix_node_file "Node.cs" (one_file "Node.cs" settled)))
     = [] ++ [EvRead "Node.cs"%string;
              EvWrite "Node.cs"%string (FixBraces.transform settled)].
Proof.
  destruct (write_only_where_change_is_tracked
              (one_file "Node.cs" settled) "Node.cs"%string settled)
    as (H1 & H2 & H3).
  - vm_compute. reflexivity.
  - split; [apply H1; vm_compute; reflexivity |].
    split; [apply H2; vm_compute; reflexivity |].
    apply H3; reflexivity.
Defined.

(** C2 as stated fails in fix_braces.py: nothing is replaced in the content,
    and the file is written all the same. *)
Lemma fix_braces_writes_unchanged_content :
  FixBraces.transform (lit "int x;") = lit "int x;"
  /\ log (snd (FixBraces.fix_node_file "Node.cs"
                 (one_file "Node.cs" (lit "int x;"))))
     = [EvRead "Node.cs"%string; EvWrite "Node.cs"%string (lit "int x;")]
  /\ ~ untouched (one_file "Node.cs" (lit "int x;"))
        (snd (FixBraces.fix_node_file "Node.cs"
                (one_file "Node.cs" (lit "int x;")))).
Proof.
  split; [by_evaluation |]. split; [by_evaluation |].
  intros (_ & evs & Hl & He).
  assert (evs = [EvRead "Node.cs"%string;
                 EvWrite "Node.cs"%string (lit "int x;")]) as ->.
  { vm_compute in Hl. vm_compute. by symmetry. }
  vm_compute in He. discriminate He.
Qed.

(* ===================================================================== *)
(** ** The loops over the files *)
(* ===================================================================== *)

Lemma guarded_process_outcome (g : text -> text) (p : string) (w : world) :
  fst (guarded_process g p w) = Ok tt
  /\ exists evs, log (snd (guarded_process g p w)) = log w ++ evs
                 /\ reported evs = [p].
Proof.
  unfold guarded_process, try_except, bind. rewrite rewrite_file_run.
  destruct (files w !! p) as [c|]; [| split; [done | by eexists]].
  destruct (noread w p); [split; [done | by eexists] |].
  destruct (nowrite w p); (split; [done |]).
  - exists [EvRead p; EvPrint (MsgError p (PermissionError p))].
    split; [simpl; by rewrite <- ?app_assoc | done].
  - exists [EvRead p; EvWrite p (g c); EvPrint (MsgFixed p)].
    split; [simpl; by rewrite <- ?app_assoc | done].
Qed.

Lemma guarded_batch_outcome (g : text -> text) (ps : list string) :
  forall w,
    fst (for_each ps (guarded_process g) w) = Ok tt
    /\ exists evs, log (snd (for_each ps (guarded_process g) w)) = log w ++ evs
                   /\ reported evs = ps.
Proof.
  induction ps as [|p ps IH]; intros w; simpl.
  - split; [done |]. exists []. by rewrite app_nil_r.
  - unfold bind.
    destruct (guarded_process_outcome g p w) as (Hr & e1 & H1 & R1).
    destruct (guarded_process g p w) as [r w1]. simpl in Hr, H1. subst r.
    destruct (IH w1) as (Hr2 & e2 & H2 & R2).
    split; [done |]. exists (e1 ++ e2).
    split; [by rewrite H2, H1, <- app_assoc |].
    unfold reported in *. by rewrite omap_app, R1, R2.
Qed.

(** C7, as the code has it.  The loops of fix_simple.py and fix_braces.py
    wrap each file in [try/except Exception]: whatever fails, the loop ends
    normally and every file of the list has its own outcome line, in order.
    The loop of fix.py only asks [os.path.exists]: a missing path is
    reported and skipped, while an exception raised for a file leaves the
    loop with the files after it not processed. *)
Theorem guarded_loops_never_abort :
  (forall (ps : list string) (w : world),
     fst (FixSimple.batch ps w) = Ok tt
     /\ exists evs, log (snd (FixSimple.batch ps w)) = log w ++ evs
                    /\ reported evs = ps)
  /\ (forall (ps : list string) (w : world),
        fst (FixBraces.batch ps w) = Ok tt
        /\ exists evs, log (snd (FixBraces.batch ps w)) = log w ++ evs
                       /\ reported evs = ps)
  /\ (forall (p : string) (ps : list string) (w : world),
        files w !! p = None ->
        Fix.batch (p :: ps) w
        = Fix.batch ps (emit (EvPrint (MsgNotFound p)) w))
  /\ (forall (p : string) (ps : list string) (w w' : world) (e : exn),
        Fix.process p w = (Raise e, w') ->
        Fix.batch (p :: ps) w = (Raise e, w')).
Proof.
  split; [| split; [| split]].
  - intros ps w. apply (guarded_batch_outcome FixSimple.transform).
  - intros ps w. apply (guarded_batch_outcome FixBraces.transform).
  - intros p ps w Hf. unfold Fix.batch. simpl. unfold bind at 1.
    unfold Fix.process, bind, exists_. by rewrite Hf.
  - intros p ps w w' e H. unfold Fix.batch. simpl. unfold bind at 1.
    by rewrite H.
Qed.

Lemma guarded_loops_never_abort_witness :
  fst (FixBraces.batch ["A.cs"; "Missing.cs"; "B.cs"]%string two_files) = Ok tt
  /\ Fix.batch ["Missing.cs"; "B.cs"]%string two_files
     = Fix.batch ["B.cs"]%string
         (emit (EvPrint (MsgNotFound "Missing.cs")) two_files)
  /\ Fix.batch ["A.cs"; "B.cs"]%string two_files
     = (Raise (PermissionError "A.cs"), two_files).
Proof.
  destruct guarded_loops_never_abort as (_ & H2 & H3 & H4).
  split; [apply H2 |]. split.
  - apply H3. vm_compute. reflexivity.
  - apply H4. vm_compute. reflexivity.
Defined.

(** C7 as stated fails in fix.py: the first file cannot be read, the
    exception leaves the loop, and the second file, which needed a fix, is
    neither read nor reported; the loop of fix_braces.py goes on. *)
Lemma fix_batch_aborts_on_first_error :
  fst (Fix.batch ["A.cs"; "B.cs"]%string two_files)
    = Raise (PermissionError "A.cs")
  /\ log (snd (Fix.batch ["A.cs"; "B.cs"]%string two_files)) = []
  /\ files (snd (Fix.batch ["A.cs"; "B.cs"]%string two_files))
       !! "B.cs"%string = Some (lit "int b;")
  /\ Fix.transform (lit "int b;") <> lit "int b;"
  /\ log (snd (FixBraces.batch ["A.cs"; "B.cs"]%string two_files))
     = [EvPrint (MsgError "A.cs" (PermissionError "A.cs"));
        EvRead "B.cs"%string; EvWrite "B.cs"%string (lit "int b;");
        EvPrint (MsgFixed "B.cs")].
Proof.
  split; [by_evaluation |]. split; [by_evaluation |].
  split; [by_evaluation |]. split; [| by_evaluation].
  intros E. vm_compute in E. discriminate E.
Qed.

(* ===================================================================== *)
(** ** Running a script twice *)
(* ===================================================================== *)

Lemma first_fix_has_adapter (content content' : text) :
  CanvasConversions.first_fix CanvasConversions.patterns content
    = Some content' ->
  contains CanvasConversions.adapter_name content' = true.
Proof.
  unfold CanvasConversions.patterns. simpl.
  repeat
    match goal with
    | |- (if is_found (search ?pat content) then Some (sub _ ?repl _) else _)
         = _ -> _ =>
        let E := fresh "E" in
        destruct (is_found (search pat content)) eqn:E;
        [ intros [= <-];
          destruct (sub_puts_replacement pat repl content 0 E) as (a & b & Hs);
          rewrite Hs; apply contains_app_intro; by_evaluation | ]
    end.
  done.
Qed.

Lemma canvas_fix_node_file_run (p : string) (w : world) :
  CanvasConversions.fix_node_file p w =
  match files w !! p with
  | None => (Raise (FileNotFoundError p), w)
  | Some c =>
      if noread w p then (Raise (PermissionError p), w)
      else if contains CanvasConversions.adapter_name c then
        (Ok tt, emit (EvPrint (MsgAlreadyAdapter p)) (emit (EvRead p) w))
      else
        match CanvasConversions.first_fix CanvasConversions.patterns c with
        | Some c' =>
            if nowrite w p then (Raise (PermissionError p), emit (EvRead p) w)
            else (Ok tt, emit (EvPrint (MsgFixed p))
                           (emit (EvWrite p c') (store p c' (emit (EvRead p) w))))
        | None =>
            (Ok tt, emit (EvPrint (MsgNoCanvasPattern p)) (emit (EvRead p) w))
        end
  end.
Proof.
  unfold CanvasConversions.fix_node_file, bind, read.
  destruct (files w !! p) as [c|]; [| done].
  destruct (noread w p); [done |].
  destruct (contains CanvasConversions.adapter_name c); [done |].
  destruct (CanvasConversions.first_fix CanvasConversions.patterns c); [| done].
  unfold write. simpl. by destruct (nowrite w p).
Qed.

Lemma untouched_by (w : world) (evs : list event) :
  forallb (fun ev => negb (is_write ev)) evs = true ->
  forall w', files w' = files w -> log w' = log w ++ evs -> untouched w w'.
Proof. intros He w' Hf Hl. split; [done | by exists evs]. Qed.

(** C3, as the code has it.  fix_all_node_canvas_conversions.py checks for
    [SkiaCanvasAdapter] before it looks for a pattern: on the content that
    one call leaves, a second call changes nothing and does not write; and
    a second call on a file, whatever the first one did, writes no file. *)
Theorem canvas_conversion_idempotent :
  (forall content : text,
     CanvasConversions.changed (CanvasConversions.transform content) = false
     /\ CanvasConversions.transform (CanvasConversions.transform content)
        = CanvasConversions.transform content)
  /\ (forall (w : world) (p : string),
        let w1 := snd (CanvasConversions.fix_node_file p w) in
        untouched w1 (snd (CanvasConversions.fix_node_file p w1))).
Proof.
  split.
  - intros content.
    unfold CanvasConversions.transform, CanvasConversions.changed.
    destruct (contains CanvasConversions.adapter_name content) eqn:Ha.
    + by rewrite Ha.
    + destruct (CanvasConversions.first_fix CanvasConversions.patterns content)
        as [content'|] eqn:Ef.
      * by rewrite (first_fix_has_adapter _ _ Ef).
      * by rewrite Ha, Ef.
  - intros w p w1. subst w1. rewrite (canvas_fix_node_file_run p w).
    destruct (files w !! p) as [c|] eqn:Hf.
    2: { cbn [snd]. rewrite canvas_fix_node_file_run, Hf. apply untouched_refl. }
    destruct (noread w p) eqn:Hr.
    { cbn [snd]. rewrite canvas_fix_node_file_run, Hf, Hr. apply untouched_refl. }
    destruct (contains CanvasConversions.adapter_name c) eqn:Ha.
    { cbn [snd]. rewrite canvas_fix_node_file_run. world_simpl.
      rewrite Hf, Hr, Ha.
      apply (untouched_by _ [EvRead p; EvPrint (MsgAlreadyAdapter p)]);
        [done | done | cbn [log]; by rewrite <- !app_assoc]. }
    destruct (CanvasConversions.first_fix CanvasConversions.patterns c)
      as [c'|] eqn:Ef.
    + destruct (nowrite w p) eqn:Hw; cbn [snd];
        rewrite canvas_fix_node_file_run; world_simpl.
      * rewrite Hf, Hr, Ha, Ef, Hw.
        by apply (untouched_by _ [EvRead p]).
      * rewrite lookup_insert_eq, Hr, (first_fix_has_adapter _ _ Ef).
        apply (untouched_by _ [EvRead p; EvPrint (MsgAlreadyAdapter p)]);
          [done | done | cbn [log]; by rewrite <- !app_assoc].
    + cbn [snd]. rewrite canvas_fix_node_file_run. world_simpl.
      rewrite Hf, Hr, Ha, Ef.
      apply (untouched_by _ [EvRead p; EvPrint (MsgNoCanvasPattern p)]);
        [done | done | cbn [log]; by rewrite <- !app_assoc].
Qed.

(** C3 as stated fails in fix_simple.py, which has no such check: its last
    replacement matches its own output, and a second run adds a second
    semicolon. *)
Lemma fix_simple_second_run_changes :
  FixSimple.transform (lit "Canvas = c })") = lit "Canvas = c });"
  /\ FixSimple.transform (FixSimple.transform (lit "Canvas = c })"))
     = lit "Canvas = c });;"
  /\ FixSimple.transform (FixSimple.transform (lit "Canvas = c })"))
     <> FixSimple.transform (lit "Canvas = c })").
Proof.
  split; [by_evaluation |]. split; [by_evaluation |].
  intros E. vm_compute in E. discriminate E.
Qed.

(* ===================================================================== *)
(** ** fix.py: the shape of what is written *)
(* ===================================================================== *)

Lemma lstrip_idem (s : text) : lstrip (lstrip s) = lstrip s.
Proof.
  induction s as [|c s IH]; [done |]. simpl.
  destruct (isspace c) eqn:E; [done |]. simpl. by rewrite E.
Qed.

Lemma lstrip_head (s : text) (x : N) :
  head (lstrip s) = Some x -> isspace x = false.
Proof.
  induction s as [|c s IH]; [done |]. simpl.
  destruct (isspace c) eqn:E; [done |]. simpl. by intros [= <-].
Qed.

Lemma rstrip_last (s : text) (x : N) :
  last (rstrip s) = Some x -> isspace x = false.
Proof.
  unfold rstrip. intros H. apply (lstrip_head (rev s)).
  destruct (lstrip (rev s)) as [|c l]; [done |].
  simpl in H. rewrite last_snoc in H. done.
Qed.

Lemma rstrip_newline (s : text) : rstrip (rstrip s ++ [LF]) = rstrip s.
Proof.
  unfold rstrip. rewrite rev_app_distr, rev_involutive. simpl.
  by rewrite lstrip_idem.
Qed.

(** What fix.py compares and writes is always in normal form: it ends with
    one newline, and what stands before that newline does not end with
    white space. *)
Theorem fix_output_is_normalized (content : text) :
  exists body,
    Fix.transform content = body ++ [LF]
    /\ (forall x, last body = Some x -> isspace x = false)
    /\ rstrip (Fix.transform content) ++ [LF] = Fix.transform content.
Proof.
  unfold Fix.transform. exists (rstrip (fst (Fix.rules content))).
  split; [done |]. split; [apply rstrip_last |].
  by rewrite rstrip_newline.
Qed.

(** A second run of fix.py on its own output changes nothing as soon as no
    rule fires on that output: the call reports no change, and no file is
    copied or written. *)
Theorem fix_second_run_settles
    (w : world) (p : string) (content : text) :
  files w !! p = Some (Fix.transform content) ->
  noread w p = false ->
  Fix.changes_made (Fix.transform content) = false ->
  Fix.transform (Fix.transform content) = Fix.transform content
  /\ Fix.fix_effect_file_improved p w
     = (Ok false, emit (EvPrint MsgNoChanges) (emit (EvRead p) w)).
Proof.
  intros Hf Hr Hc.
  assert (Fix.transform (Fix.transform content) = Fix.transform content) as Ht.
  { unfold Fix.transform at 1. rewrite rules_unfired by done.
    unfold Fix.transform. by rewrite rstrip_newline. }
  split; [done |].
  unfold Fix.fix_effect_file_improved, bind, read. rewrite Hf, Hr.
  unfold text_eqb. by rewrite bool_decide_eq_true_2.
Qed.

Lemma fix_second_run_settles_witness :
  Fix.transform (Fix.transform (lit "int x;   ")) = Fix.transform (lit "int x;   ")
  /\ fst (Fix.fix_effect_file_improved "Effect.cs"
            (one_file "Effect.cs" (Fix.transform (lit "int x;   ")))) = Ok false.
Proof.
  destruct (fix_second_run_settles
              (one_file "Effect.cs" (Fix.transform (lit "int x;   ")))
              "Effect.cs"%string (lit "int x;   ")) as [H1 H2].
  - vm_compute. reflexivity.
  - reflexivity.
  - vm_compute. reflexivity.
  - split; [exact H1 | by rewrite H2].
Defined.

(* ===================================================================== *)
(** ** fix.py: what a call leaves on disk *)
(* ===================================================================== *)



(** A call of [fix_effect_file_improved] touches no other file than the
    one it is given and its backup, and neither does the loop of [main]
    over a list of files. *)
Lemma fix_frame (w : world) (p q : string) :
  q <> p -> q <> Fix.backup_of p ->
  files (snd (Fix.fix_effect_file_improved p w)) !! q = files w !! q.
Proof.
  intros Hp Hb. destruct (fix_effect_file_improved_run w p); try done.
  - cbn [snd]. unfold backed_up. world_simpl. by rewrite lookup_insert_ne.
  - cbn [snd]. unfold verified, written, backed_up. world_simpl.
    by rewrite !lookup_insert_ne.
Qed.

Lemma process_frame (w : world) (p q : string) :
  q <> p -> q <> Fix.backup_of p ->
  files (snd (Fix.process p w)) !! q = files w !! q.
Proof.
  intros Hp Hb. unfold Fix.process, bind, exists_.
  destruct (is_found (files w !! p)); [| done].
  pose proof (fix_frame w p q Hp Hb) as H.
  destruct (Fix.fix_effect_file_improved p w) as [[[] | e] w1]; done.
Qed.

Theorem fix_batch_frame (ps : list string) (w : world) (q : string) :
  ~ In q ps -> ~ In q (map Fix.backup_of ps) ->
  files (snd (Fix.batch ps w)) !! q = files w !! q.
Proof.
  unfold Fix.batch. revert w. induction ps as [|p ps IH]; intros w Hq Hb.
  - done.
  - simpl in Hq, Hb. simpl. unfold bind.
    pose proof (process_frame w p q) as Hp.
    destruct (Fix.process p w) as [[[] | e] w1]; simpl in *.
    + rewrite IH by tauto. apply Hp; intros ->; tauto.
    + apply Hp; intros ->; tauto.
Qed.

Lemma fix_batch_frame_witness :
  files (snd (Fix.batch ["A.cs"; "B.cs"]%string
                (World (<["C.cs"%string := lit "int c;"]> (files two_files))
                       (fun _ => false) (fun _ => false) [])))
    !! "C.cs"%string = Some (lit "int c;").
Proof.
  rewrite (fix_batch_frame ["A.cs"; "B.cs"]%string).
  - vm_compute. reflexivity.
  - simpl. intros [H | [H | []]]; discriminate H.
  - simpl. intros [H | [H | []]]; vm_compute in H; discriminate H.
Defined.

(* ===================================================================== *)
(** ** [str.replace]: what a replacement cannot bring in *)
(* ===================================================================== *)

Lemma contains_cons_intro (q : text) (c : N) (s : text) :
  contains q s = true -> contains q (c :: s) = true.
Proof. intros H. simpl. by rewrite H, orb_true_r. Qed.

Lemma contains_app_left (q a s : text) :
  contains q s = true -> contains q (a ++ s) = true.
Proof.
  intros H. induction a as [|c a IH]; [done |].
  by apply contains_cons_intro.
Qed.

Lemma contains_of_startswith (q s : text) :
  startswith q s = true -> contains q s = true.
Proof. intros H. destruct s; simpl in *; by rewrite H. Qed.

(** A text [q] that can neither run into [new] nor start inside it is in
    the output of a replacement only if it was in the input. *)
Lemma scan_contains_back (old new q : text) :
  old <> [] ->
  tails_avoid q new = true -> no_inner_match q new = true ->
  forall s, contains q (scan old new s) = true -> contains q s = true.
Proof.
  intros Hne Ha Hb s. pattern s, (scan old new s).
  apply (scan_ind old new Hne); clear s.
  - done.
  - intros t IH H. rewrite contains_skip in H by done.
    by apply contains_app_left, IH.
  - intros c s Hmiss IH H. simpl in H. apply orb_true_iff in H as [H | H].
    + apply contains_of_startswith.
      apply (scan_startswith_back old new Hne (c :: s) q Ha).
      by rewrite scan_miss.
    + by apply contains_cons_intro, IH.
Qed.

Lemma scan_keeps_absent (old new q : text) :
  old <> [] ->
  tails_avoid q new = true -> no_inner_match q new = true ->
  forall s, contains q s = false -> contains q (scan old new s) = false.
Proof.
  intros Hne Ha Hb s Hs.
  destruct (contains q (scan old new s)) eqn:E; [| done].
  apply (scan_contains_back old new q Hne Ha Hb) in E. congruence.
Qed.

(* ===================================================================== *)
(** ** fix_braces.py and fix_simple.py: what is left of the old idioms *)
(* ===================================================================== *)

Lemma fix_braces_output_clean (content : text) :
  contains (lit "Canvas = c);") (FixBraces.transform content) = false
  /\ contains (lit "Canvas =  canvas);") (FixBraces.transform content) = false.
Proof.
  unfold FixBraces.transform. rewrite !replace_scan by lit_nonempty. split.
  - apply scan_keeps_absent; [lit_nonempty | by_evaluation | by_evaluation |].
    apply scan_removes_all; [lit_nonempty | by_evaluation | by_evaluation].
  - apply scan_removes_all; [lit_nonempty | by_evaluation | by_evaluation].
Qed.

(** fix_braces.py is idempotent: in what it writes neither of the two texts
    it looks for is left, so a second run computes the same content. *)
Theorem fix_braces_idempotent (content : text) :
  contains (lit "Canvas = c);") (FixBraces.transform content) = false
  /\ contains (lit "Canvas =  canvas);") (FixBraces.transform content) = false
  /\ FixBraces.transform (FixBraces.transform content)
     = FixBraces.transform content.
Proof.
  destruct (fix_braces_output_clean content) as [H1 H2].
  split; [done |]. split; [done |].
  unfold FixBraces.transform at 1. rewrite !replace_scan by lit_nonempty.
  rewrite (scan_absent _ _ _ H1). by apply scan_absent.
Qed.

Lemma step2_output_clean (s : text) :
  contains (lit ".Process(f,") (FixSimple.step2 s) = false.
Proof.
  unfold FixSimple.step2. rewrite replace_scan by lit_nonempty.
  apply scan_removes_all; [lit_nonempty | by_evaluation | by_evaluation].
Qed.

Lemma step3_after_step2 (s : text) :
  FixSimple.step3 (FixSimple.step2 s) = FixSimple.step2 s.
Proof.
  unfold FixSimple.step3. rewrite replace_scan by lit_nonempty.
  apply scan_absent.
  destruct (contains (lit ".Process(f, c)") (FixSimple.step2 s)) eqn:E; [| done].
  change (lit ".Process(f, c)") with (lit ".Process(f," ++ lit " c)") in E.
  apply contains_longer in E. by rewrite step2_output_clean in E.
Qed.

(** In fix_simple.py the third replacement, of [.Process(f, c)], changes
    nothing on any content: the second one has rewritten every
    [.Process(f,] before it. *)
Theorem fix_simple_third_replacement_is_dead (content : text) :
  FixSimple.step3 (FixSimple.step2 (FixSimple.step1 content))
  = FixSimple.step2 (FixSimple.step1 content)
  /\ FixSimple.transform content
     = FixSimple.step5 (FixSimple.step4
         (FixSimple.step2 (FixSimple.step1 content))).
Proof.
  split; [apply step3_after_step2 |].
  unfold FixSimple.transform. by rewrite step3_after_step2.
Qed.

Lemma fix_simple_output_clean (content : text) :
  contains (lit "EffectRegistry.Create(") (FixSimple.transform content) = false
  /\ contains (lit ".Process(f,") (FixSimple.transform content) = false
  /\ contains (lit "Canvas =  canvas);") (FixSimple.transform content) = false.
Proof.
  unfold FixSimple.transform. rewrite step3_after_step2.
  unfold FixSimple.step5, FixSimple.step4.
  rewrite !replace_scan by lit_nonempty.
  split; [| split].
  - do 2 (apply scan_keeps_absent;
          [lit_nonempty | by_evaluation | by_evaluation |]).
    unfold FixSimple.step2. rewrite replace_scan by lit_nonempty.
    apply scan_keeps_absent; [lit_nonempty | by_evaluation | by_evaluation |].
    unfold FixSimple.step1. rewrite replace_scan by lit_nonempty.
    apply scan_removes_all; [lit_nonempty | by_evaluation | by_evaluation].
  - do 2 (apply scan_keeps_absent;
          [lit_nonempty | by_evaluation | by_evaluation |]).
    apply step2_output_clean.
  - apply scan_keeps_absent; [lit_nonempty | by_evaluation | by_evaluation |].
    apply scan_removes_all; [lit_nonempty | by_evaluation | by_evaluation].
Qed.

(** What fix_simple.py writes holds no [EffectRegistry.Create(], no
    [.Process(f,] and no [Canvas =  canvas);] any more, whatever the
    content was. *)
Theorem fix_simple_removes_old_idioms (content : text) :
  contains (lit "EffectRegistry.Create(") (FixSimple.transform content) = false
  /\ contains (lit ".Process(f,") (FixSimple.transform content) = false
  /\ contains (lit "Canvas =  canvas);") (FixSimple.transform content) = false.
Proof. apply fix_simple_output_clean. Qed.

(** A second run of fix_simple.py does what its last replacement alone
    does: the four others find nothing in the output of the first run. *)
Theorem fix_simple_second_run_is_last_step (content : text) :
  FixSimple.transform (FixSimple.transform content)
  = FixSimple.step5 (FixSimple.transform content).
Proof.
  destruct (fix_simple_output_clean content) as (H1 & H2 & H4).
  set (t := FixSimple.transform content) in *.
  unfold FixSimple.transform.
  assert (FixSimple.step1 t = t) as ->.
  { unfold FixSimple.step1. rewrite replace_scan by lit_nonempty.
    by apply scan_absent. }
  assert (FixSimple.step2 t = t) as E2.
  { unfold FixSimple.step2. rewrite replace_scan by lit_nonempty.
    by apply scan_absent. }
  rewrite step3_after_step2, E2.
  assert (FixSimple.step4 t = t) as ->.
  { unfold FixSimple.step4. rewrite replace_scan by lit_nonempty.
    by apply scan_absent. }
  done.
Qed.

(* ===================================================================== *)
(** ** fix_simple.py and fix_braces.py: what the loop leaves on disk *)
(* ===================================================================== *)

Lemma guarded_process_world (g : text -> text) (p : string) (w : world) :
  fst (guarded_process g p w) = Ok tt
  /\ noread (snd (guarded_process g p w)) = noread w
  /\ nowrite (snd (guarded_process g p w)) = nowrite w
  /\ files (snd (guarded_process g p w))
     = match files w !! p with
       | Some c =>
           if noread w p || nowrite w p then files w
           else <[p := g c]> (files w)
       | None => files w
       end.
Proof.
  unfold guarded_process, try_except, bind. rewrite rewrite_file_run.
  destruct (files w !! p) as [c|]; [| done].
  destruct (noread w p); [done |].
  destruct (nowrite w p); done.
Qed.

Lemma guarded_batch_frame (g : text -> text) (ps : list string) (q : string) :
  ~ In q ps ->
  forall w, files (snd (for_each ps (guarded_process g) w)) !! q = files w !! q.
Proof.
  induction ps as [|p ps IH]; intros Hq w; [done |].
  simpl in Hq. simpl. unfold bind.
  destruct (guarded_process_world g p w) as (Hr & _ & _ & Hf).
  destruct (guarded_process g p w) as [r w1]. simpl in *. subst r.
  rewrite IH by tauto. rewrite Hf.
  destruct (files w !! p); [| done].
  destruct (noread w p || nowrite w p); [done |].
  apply lookup_insert_ne. intros ->. tauto.
Qed.

Lemma guarded_batch_result (g : text -> text) (ps : list string) :
  NoDup ps ->
  forall (w : world) (p : string) (c : text),
    In p ps -> files w !! p = Some c ->
    noread w p = false -> nowrite w p = false ->
    files (snd (for_each ps (guarded_process g) w)) !! p = Some (g c).
Proof.
  induction 1 as [|p0 ps Hnot Hnd IH]; intros w p c Hin Hf Hr Hw; [done |].
  simpl. unfold bind.
  destruct (guarded_process_world g p0 w) as (Hres & Hnr & Hnw & Hfs).
  destruct (guarded_process g p0 w) as [r w1]. simpl in *. subst r.
  destruct (decide (p0 = p)) as [-> | Hne].
  - rewrite (guarded_batch_frame g ps p)
      by (intros Hi; apply Hnot; by apply list_elem_of_In).
    rewrite Hfs, Hf, Hr, Hw. simpl. apply lookup_insert_eq.
  - destruct Hin as [-> | Hin]; [done |].
    apply IH; [done | | by rewrite Hnr | by rewrite Hnw].
    rewrite Hfs. destruct (files w !! p0); [| done].
    destruct (noread w p0 || nowrite w p0); [done |].
    by rewrite lookup_insert_ne.
Qed.

(** The loops of fix_simple.py and fix_braces.py over a list of distinct
    paths: every listed file that can be read and written ends up holding
    the transformation of what it held, and a file that is not listed is
    left alone, whatever happens to the others. *)
Theorem guarded_batch_rewrites_each_file
    (ps : list string) (w : world) (p : string) (c : text) :
  NoDup ps ->
  files w !! p = Some c ->
  (In p ps -> noread w p = false -> nowrite w p = false ->
     files (snd (FixSimple.batch ps w)) !! p = Some (FixSimple.transform c)
     /\ files (snd (FixBraces.batch ps w)) !! p = Some (FixBraces.transform c))
  /\ (~ In p ps ->
        files (snd (FixSimple.batch ps w)) !! p = Some c
        /\ files (snd (FixBraces.batch ps w)) !! p = Some c).
Proof.
  intros Hnd Hf. split.
  - intros Hin Hr Hw. split.
    + by apply (guarded_batch_result FixSimple.transform ps Hnd w p c).
    + by apply (guarded_batch_result FixBraces.transform ps Hnd w p c).
  - intros Hnot. split.
    + rewrite <- Hf. by apply (guarded_batch_frame FixSimple.transform).
    + rewrite <- Hf. by apply (guarded_batch_frame FixBraces.transform).
Qed.

Lemma guarded_batch_rewrites_each_file_witness :
  files (snd (FixBraces.batch ["A.cs"; "B.cs"]%string two_files))
    !! "B.cs"%string = Some (FixBraces.transform (lit "int b;")).
Proof.
  destruct (guarded_batch_rewrites_each_file
              ["A.cs"; "B.cs"]%string two_files "B.cs"%string (lit "int b;"))
    as [H _].
  - apply NoDup_cons_2; [| apply NoDup_cons_2; [apply not_elem_of_nil | constructor]].
    apply not_elem_of_cons. split; [discriminate | apply not_elem_of_nil].
  - vm_compute. reflexivity.
  - apply H; [right; by left | reflexivity | reflexivity].
Defined.

(** A second run of fix_braces.py on a file leaves every file as the first
    run left it. *)
Theorem fix_braces_rerun_keeps_files (w : world) (p : string) :
  let w1 := snd (FixBraces.fix_node_file p w) in
  files (snd (FixBraces.fix_node_file p w1)) = files w1.
Proof.
  intros w1. subst w1.
  change (FixBraces.fix_node_file p) with (rewrite_file FixBraces.transform p).
  rewrite (rewrite_file_run _ p w).
  destruct (files w !! p) as [c|] eqn:Hf.
  2: { cbn [snd]. by rewrite rewrite_file_run, Hf. }
  destruct (noread w p) eqn:Hr.
  { cbn [snd]. by rewrite rewrite_file_run, Hf, Hr. }
  destruct (nowrite w p) eqn:Hw; cbn [snd]; rewrite rewrite_file_run; world_simpl.
  - by rewrite Hf, Hr, Hw.
  - rewrite lookup_insert_eq, Hr, Hw. cbn [snd files].
    destruct (fix_braces_output_clean c) as [H1 H2].
    assert (FixBraces.transform (FixBraces.transform c) = FixBraces.transform c)
      as ->.
    { unfold FixBraces.transform at 1. rewrite !replace_scan by lit_nonempty.
      rewrite (scan_absent _ _ _ H1). by apply scan_absent. }
    apply insert_insert_eq.
Qed.

(** A content that holds none of the texts fix_simple.py looks for is
    written back as it is: after the call every file holds what it held. *)
Theorem fix_simple_leaves_foreign_content
    (w : world) (p : string) (c : text) :
  files w !! p = Some c ->
  contains (lit "EffectRegistry.Create(") c = false ->
  contains (lit ".Process(f,") c = false ->
  contains (lit "Canvas =  canvas);") c = false ->
  contains (lit "Canvas = c })") c = false ->
  FixSimple.transform c = c
  /\ files (snd (FixSimple.fix_node_file p w)) = files w.
Proof.
  intros Hf H1 H2 H4 H5.
  assert (FixSimple.transform c = c) as Ht.
  { unfold FixSimple.transform.
    assert (FixSimple.step1 c = c) as ->.
    { unfold FixSimple.step1. rewrite replace_scan by lit_nonempty.
      by apply scan_absent. }
    assert (FixSimple.step2 c = c) as E2.
    { unfold FixSimple.step2. rewrite replace_scan by lit_nonempty.
      by apply scan_absent. }
    rewrite step3_after_step2, E2.
    assert (FixSimple.step4 c = c) as ->.
    { unfold FixSimple.step4. rewrite replace_scan by lit_nonempty.
      by apply scan_absent. }
    unfold FixSimple.step5. rewrite replace_scan by lit_nonempty.
    by apply scan_absent. }
  split; [done |].
  change (FixSimple.fix_node_file p) with (rewrite_file FixSimple.transform p).
  rewrite rewrite_file_run, Hf.
  destruct (noread w p); [done |]. destruct (nowrite w p); [done |].
  cbn [snd]. world_simpl. rewrite Ht. by apply insert_id.
Qed.

Lemma fix_simple_leaves_foreign_content_witness :
  FixSimple.transform (lit "int x;") = lit "int x;"
  /\ files (snd (FixSimple.fix_node_file "Node.cs"
                   (one_file "Node.cs" (lit "int x;"))))
     = files (one_file "Node.cs" (lit "int x;")).
Proof.
  apply (fix_simple_leaves_foreign_content
           (one_file "Node.cs" (lit "int x;")) "Node.cs"%string (lit "int x;"));
    vm_compute; reflexivity.
Defined.

(* ===================================================================== *)
(** ** fix_all_node_canvas_conversions.py in terms of [str.replace] *)
(* ===================================================================== *)

Lemma match_here_literal (old s : text) :
  match_here [Lit old] s
  = if startswith old s then Some (drop (length old) s) else None.
Proof. done. Qed.

Lemma startswith_nil_r (old : text) : old <> [] -> startswith old [] = false.
Proof. by destruct old. Qed.

Lemma sub_from_literal (old new : text) :
  old <> [] ->
  forall s k, sub_from [Lit old] new s k = replace_from old new s k.
Proof.
  intros Hne. induction s as [|c s IH]; intros k.
  - cbn [sub_from replace_from]. rewrite match_here_literal.
    rewrite startswith_nil_r by done. by destruct k.
  - destruct k as [|k]; [| apply IH].
    cbn [sub_from replace_from]. rewrite match_here_literal.
    destruct (startswith old (c :: s)) eqn:E; [| by rewrite IH].
    pose proof (startswith_length _ _ E) as Hl.
    rewrite length_drop.
    assert (length old <> 0) as Hz by (by destruct old).
    replace (length (c :: s) - (length (c :: s) - length old))
      with (S (length old - 1)) by lia.
    by rewrite IH.
Qed.

Lemma sub_literal (old new s : text) :
  old <> [] -> sub [Lit old] new s = replace old new s.
Proof.
  intros Hne. unfold sub. rewrite sub_from_literal by done.
  unfold replace. by destruct old.
Qed.

Lemma search_from_literal (old s : text) (i : nat) :
  is_found (search_from [Lit old] s i) = contains old s.
Proof.
  revert i. induction s as [|c s IH]; intros i.
  - cbn [search_from contains]. rewrite match_here_literal.
    by destruct (startswith old []).
  - cbn [search_from contains]. rewrite match_here_literal.
    destruct (startswith old (c :: s)); [done |]. apply IH.
Qed.

(** The loop over the three patterns of fix_all_node_canvas_conversions.py
    is a chain of plain text operations: the first of [Canvas = canvas],
    [Canvas = c] and [Canvas=canvas] that occurs in the content is replaced
    at every occurrence, as [str.replace] would, and the two others are not
    looked at. *)
Theorem canvas_conversion_as_replace (content : text) :
  CanvasConversions.first_fix CanvasConversions.patterns content
  = if contains (lit "Canvas = canvas") content then
      Some (replace (lit "Canvas = canvas")
              (lit "Canvas = new SkiaCanvasAdapter(canvas)") content)
    else if contains (lit "Canvas = c") content then
      Some (replace (lit "Canvas = c")
              (lit "Canvas = new SkiaCanvasAdapter(c)") content)
    else if contains (lit "Canvas=canvas") content then
      Some (replace (lit "Canvas=canvas")
              (lit "Canvas=new SkiaCanvasAdapter(canvas)") content)
    else None.
Proof.
  unfold CanvasConversions.patterns. cbn [CanvasConversions.first_fix].
  unfold search. rewrite !search_from_literal.
  rewrite !sub_literal by lit_nonempty. done.
Qed.

(** What a call of [fix_node_file] (canvas conversion) leaves on disk, for
    a file that can be read and written: the file is rewritten exactly when
    it does not name the adapter yet and holds one of the patterns, and
    then its new content names the adapter and differs from the old one. *)
Theorem canvas_fix_node_file_effect (w : world) (p : string) (c : text) :
  files w !! p = Some c ->
  noread w p = false ->
  nowrite w p = false ->
  let out := CanvasConversions.fix_node_file p w in
  fst out = Ok tt
  /\ files (snd out)
     = (if CanvasConversions.changed c
        then <[p := CanvasConversions.transform c]> (files w)
        else files w)
  /\ (CanvasConversions.changed c = true ->
        contains CanvasConversions.adapter_name c = false
        /\ contains CanvasConversions.adapter_name
             (CanvasConversions.transform c) = true
        /\ CanvasConversions.transform c <> c).
Proof.
  intros Hf Hr Hw out. subst out.
  rewrite canvas_fix_node_file_run, Hf, Hr.
  unfold CanvasConversions.changed, CanvasConversions.transform.
  destruct (contains CanvasConversions.adapter_name c) eqn:Ha; [done |].
  destruct (CanvasConversions.first_fix CanvasConversions.patterns c)
    as [c'|] eqn:Ef; [| done].
  rewrite Hw. cbn [fst snd negb andb is_found]. world_simpl.
  split; [done |]. split; [done |]. intros _.
  pose proof (first_fix_has_adapter _ _ Ef) as Hc'.
  split; [done |]. split; [done |]. intros ->. congruence.
Qed.

Lemma canvas_fix_node_file_effect_witness :
  files (snd (CanvasConversions.fix_node_file "Node.cs"
                (one_file "Node.cs" (lit "Canvas = canvas)"))))
    !! "Node.cs"%string
  = Some (lit "Canvas = new SkiaCanvasAdapter(canvas))").
Proof.
  destruct (canvas_fix_node_file_effect
              (one_file "Node.cs" (lit "Canvas = canvas)")) "Node.cs"%string
              (lit "Canvas = canvas)")) as (_ & H & _).
  - vm_compute. reflexivity.
  - reflexivity.
  - reflexivity.
  - rewrite H. vm_compute. reflexivity.
Defined.

(* ===================================================================== *)
(** ** fix.py: the outcome lines of the loop *)
(* ===================================================================== *)

Lemma fix_run_reports_nothing (w : world) (p : string)
    (out : result bool * world) :
  fix_run w p out ->
  exists evs, log (snd out) = log w ++ evs /\ reported evs = [].
Proof.
  intros H. destruct H; cbn [snd].
  - exists []. by rewrite app_nil_r.
  - exists []. by rewrite app_nil_r.
  - exists [EvRead p; EvPrint MsgNoChanges]. split; [| done].
    world_simpl. by rewrite <- app_assoc.
  - by exists [EvRead p].
  - exists [EvRead p; EvCopy p (Fix.backup_of p)]. split; [| done].
    unfold backed_up. world_simpl. by rewrite <- app_assoc.
  - eexists. split; [apply (log_verified p orig) | done].
Qed.

Lemma process_reports (p : string) (w : world) :
  exists evs, log (snd (Fix.process p w)) = log w ++ evs
    /\ ((fst (Fix.process p w) = Ok tt /\ reported evs = [p])
        \/ (exists e, fst (Fix.process p w) = Raise e /\ reported evs = [])).
Proof.
  unfold Fix.process, bind, exists_.
  destruct (is_found (files w !! p)).
  - destruct (fix_run_reports_nothing _ _ _ (fix_effect_file_improved_run w p))
      as (evs & Hl & Hrep).
    destruct (Fix.fix_effect_file_improved p w) as [[b | e] w1]; cbn [snd] in *.
    + exists (evs ++ [EvPrint (if b then MsgFixed p else MsgNoChangesNeeded p)]).
      split.
      * destruct b; unfold print; world_simpl; cbn [snd log];
          by rewrite Hl, <- app_assoc.
      * left. split; [by destruct b |].
        unfold reported in *. rewrite omap_app, Hrep. by destruct b.
    + exists evs. split; [done |]. right. by exists e.
  - exists [EvPrint (MsgNotFound p)]. split; [done |]. by left.
Qed.

Lemma fix_batch_lines (ps : list string) (w : world) :
  exists evs,
    log (snd (Fix.batch ps w)) = log w ++ evs
    /\ ((fst (Fix.batch ps w) = Ok tt /\ reported evs = ps)
        \/ (exists e before p after,
              fst (Fix.batch ps w) = Raise e
              /\ ps = before ++ p :: after
              /\ reported evs = before)).
Proof.
  unfold Fix.batch. revert w. induction ps as [|p ps IH]; intros w.
  - exists []. split; [by rewrite app_nil_r | by left].
  - cbn [for_each]. unfold bind.
    destruct (process_reports p w) as (e1 & H1 & Hcase).
    destruct (Fix.process p w) as [[[] | e] w1]; cbn [fst snd] in *.
    + destruct Hcase as [[_ R1] | (e' & He & _)]; [| done].
      destruct (IH w1) as (e2 & H2 & Hrest).
      exists (e1 ++ e2). split; [by rewrite H2, H1, <- app_assoc |].
      unfold reported in *. rewrite omap_app, R1.
      destruct Hrest as [[Hok R2] | (e' & before & q & after & Hr & -> & R2)].
      * left. by rewrite R2.
      * right. exists e', (p :: before), q, after. by rewrite R2.
    + destruct Hcase as [[Hok _] | (e' & He & R1)]; [done |].
      exists e1. split; [done |]. right. by exists e, [], p, ps.
Qed.

(** The loop of fix.py prints one outcome line for each file, in order,
    until it is over or a file raises: when it ends normally every file has
    its line, and when it is left by an exception exactly the files before
    the failing one have theirs. *)
Theorem fix_batch_outcome_lines (ps : list string) (w : world) :
  exists evs,
    log (snd (Fix.batch ps w)) = log w ++ evs
    /\ ((fst (Fix.batch ps w) = Ok tt /\ reported evs = ps)
        \/ (exists e before p after,
              fst (Fix.batch ps w) = Raise e
              /\ ps = before ++ p :: after
              /\ reported evs = before)).
Proof. apply fix_batch_lines. Qed.

(* ===================================================================== *)
(** ** fix.py: the texts on which two of its rules fire *)
(* ===================================================================== *)

Lemma star_found (p : N -> bool) (k : text -> option text) (w s' : text) :
  Forall (fun c => p c = true) w ->
  is_found (k s') = true -> is_found (star p k (w ++ s')) = true.
Proof.
  intros Hw Hk. induction Hw as [|x w Hx Hw IH]; simpl.
  - destruct s' as [|c t]; [done |]. simpl.
    destruct (p c); [| done]. by destruct (star p k t).
  - rewrite Hx. by destruct (star p k (w ++ s')).
Qed.

(** The backtracking matcher finds a match wherever the pattern has one. *)
Lemma match_here_found (pat : pattern) (m r : text) :
  lang pat m r -> is_found (match_here pat (m ++ r)) = true.
Proof.
  induction 1 as [r | l pat m r Hl IH | p pat w m r Hw Hl IH | pat m r He Hl IH].
  - done.
  - rewrite match_here_lit, <- app_assoc, startswith_app, drop_app_length.
    exact IH.
  - cbn [match_here]. rewrite <- app_assoc. by apply star_found.
  - cbn [match_here]. by rewrite He.
Qed.

Lemma search_from_found (pat : pattern) (a s : text) :
  is_found (match_here pat s) = true ->
  forall i, is_found (search_from pat (a ++ s) i) = true.
Proof.
  intros H. induction a as [|c a IH]; intros i.
  - simpl. destruct s; simpl; destruct (match_here pat _); done.
  - cbn [app search_from]. destruct (match_here pat (c :: a ++ s)); [done |].
    apply IH.
Qed.


Lemma incomplete_region_lang (m r : text) :
  lang Fix.incomplete_region_pattern m r <->
  exists w1 w2 w3 w4,
    m = empty_configuration_region w1 w2 w3 w4
    /\ blanks w1 /\ blanks w2 /\ blanks w3 /\ blanks w4.
Proof.
  unfold Fix.incomplete_region_pattern, Fix.region_gap,
    empty_configuration_region, blanks. cbn [app]. split.
  - intros H.
    repeat match goal with
           | H : lang (_ :: _) _ _ |- _ => inversion H; clear H; subst
           | H : lang [] _ _ |- _ => inversion H; clear H; subst
           end.
    eexists _, _, _, _. split; [rewrite app_nil_r; reflexivity |].
    by repeat split.
  - intros (w1 & w2 & w3 & w4 & -> & H1 & H2 & H3 & H4).
    replace (lit "#endregion") with (lit "#endregion" ++ []) at 2
      by apply app_nil_r.
    repeat (first [ apply lang_lit | apply lang_star; [done |]
                  | apply (lang_lit [LF]) | apply lang_nil ]).
Qed.

(** Step 4 of fix.py fires exactly on the contents that hold a
    Configuration region with nothing but white space and at least three
    line ends in it; in particular it fires whenever the content holds the
    text the verifier reports as an incomplete Configuration region. *)
Theorem incomplete_region_rule_fires_exactly (content : text) :
  (is_found (search Fix.incomplete_region_pattern content) = true <->
   exists a w1 w2 w3 w4 b,
     content = a ++ empty_configuration_region w1 w2 w3 w4 ++ b
     /\ blanks w1 /\ blanks w2 /\ blanks w3 /\ blanks w4)
  /\ (contains (lit "#region Configuration" ++ [LF; LF; LF; LF]
                  ++ lit "#endregion") content = true ->
      is_found (search Fix.incomplete_region_pattern content) = true).
Proof.
  assert (forall a w1 w2 w3 w4 b,
            blanks w1 -> blanks w2 -> blanks w3 -> blanks w4 ->
            is_found (search Fix.incomplete_region_pattern
                        (a ++ empty_configuration_region w1 w2 w3 w4 ++ b))
            = true) as Hfire.
  { intros a w1 w2 w3 w4 b H1 H2 H3 H4. unfold search.
    apply search_from_found, match_here_found, incomplete_region_lang.
    by exists w1, w2, w3, w4. }
  split; [split |].
  - destruct (search Fix.incomplete_region_pattern content) as [[i j]|] eqn:E;
      [intros _ | done].
    destruct (search_span _ _ _ _ E) as (_ & _ & Hm).
    apply match_here_sound in Hm as (m & Hd & Hl).
    apply incomplete_region_lang in Hl as (w1 & w2 & w3 & w4 & -> & Hb).
    exists (take i content), w1, w2, w3, w4, (drop j content).
    split; [| done]. by rewrite <- Hd, take_drop.
  - intros (a & w1 & w2 & w3 & w4 & b & -> & H1 & H2 & H3 & H4).
    by apply Hfire.
  - intros (a & b & ->)%contains_occurs.
    assert (lit "#region Configuration" ++ [LF; LF; LF; LF] ++ lit "#endregion"
            = empty_configuration_region [] [] [] [LF]) as -> by by_evaluation.
    apply (Hfire a [] [] [] [LF] b); repeat constructor.
Qed.







Lemma trailing_region_lang (m r : text) :
  lang Fix.trailing_region_pattern m r <->
  exists w1 w2 w3 w4,
    m = open_configuration_region w1 w2 w3 w4
    /\ blanks w1 /\ blanks w2 /\ blanks w3 /\ blanks w4
    /\ at_end r = true.
Proof.
  unfold Fix.trailing_region_pattern, Fix.region_gap,
    open_configuration_region, blanks. cbn [app]. split.
  - intros H.
    repeat match goal with
           | H : lang (_ :: _) _ _ |- _ => inversion H; clear H; subst
           | H : lang [] _ _ |- _ => inversion H; clear H; subst
           end.
    eexists _, _, _, _. split; [rewrite app_nil_r; reflexivity |].
    by repeat split.
  - intros (w1 & w2 & w3 & w4 & -> & H1 & H2 & H3 & H4 & He).
    replace w4 with (w4 ++ []) by apply app_nil_r.
    repeat (first [ apply lang_lit | apply lang_star; [done |]
                  | apply (lang_lit [LF]) ]).
    apply lang_dollar; [done | apply lang_nil].
Qed.

Lemma at_end_blanks (r : text) : at_end r = true -> blanks r.
Proof.
  destruct r as [|c [|d r]]; simpl; try done.
  - intros _. constructor.
  - intros ->%N.eqb_eq. by repeat constructor.
Qed.

(** The rule for a trailing Configuration region (step 4, second pattern)
    fires exactly on the contents that end with an opened Configuration
    region followed by white space only, with at least three line ends. *)
Theorem trailing_region_rule_fires_exactly (content : text) :
  is_found (search Fix.trailing_region_pattern content) = true <->
  exists a w1 w2 w3 w4,
    content = a ++ open_configuration_region w1 w2 w3 w4
    /\ blanks w1 /\ blanks w2 /\ blanks w3 /\ blanks w4.
Proof.
  split.
  - destruct (search Fix.trailing_region_pattern content) as [[i j]|] eqn:E;
      [intros _ | done].
    destruct (search_span _ _ _ _ E) as (_ & _ & Hm).
    apply match_here_sound in Hm as (m & Hd & Hl).
    apply trailing_region_lang in Hl
      as (w1 & w2 & w3 & w4 & -> & H1 & H2 & H3 & H4 & He).
    exists (take i content), w1, w2, w3, (w4 ++ drop j content).
    split; [| repeat split; try done].
    + rewrite <- (take_drop i content) at 1. rewrite Hd.
      unfold open_configuration_region. by rewrite <- !app_assoc.
    + apply Forall_app. split; [done | by apply at_end_blanks].
  - intros (a & w1 & w2 & w3 & w4 & -> & H1 & H2 & H3 & H4).
    unfold search.
    replace (open_configuration_region w1 w2 w3 w4)
      with (open_configuration_region w1 w2 w3 w4 ++ []) by apply app_nil_r.
    apply search_from_found, match_here_found, trailing_region_lang.
    by exists w1, w2, w3, w4.
Qed.




(* ===================================================================== *)
(** ** fix_simple.py: the two calls it is written for *)
(* ===================================================================== *)

Lemma fix_simple_leaves_dangling_canvas (content : text) :
  contains process_call content = true ->
  contains dangling_canvas (FixSimple.transform content) = true.
Proof.
  intros H. apply FixSimpleFacts.step1_keeps_call in H.
  apply contains_occurs in H as (a & b & E1).
  unfold FixSimple.transform. rewrite step3_after_step2.
  apply FixSimpleFacts.step5_keeps_dangling, FixSimpleFacts.step4_keeps_dangling.
  rewrite E1, FixSimpleFacts.step2_on_call.
  rewrite (app_assoc _ (lit " c)")).
  apply contains_app_intro. by_evaluation.
Qed.

(** A call [.Process(f, canvas);] comes out of fix_simple.py as a complete
    [.Render(...)] call, closed by [Canvas = canvas });]: for the argument
    named [canvas] the script does what it is written for. *)
Theorem fix_simple_rewrites_canvas_call (content : text) :
  contains (lit ".Process(f, canvas);") content = true ->
  contains (FixSimple.render_prefix ++ lit "canvas });")
    (FixSimple.transform content) = true.
Proof.
  intros H.
  assert (contains (lit ".Process(f, canvas);") (FixSimple.step1 content) = true)
    as H1.
  { unfold FixSimple.step1. rewrite replace_scan by lit_nonempty.
    apply scan_keeps; [lit_nonempty | by_evaluation | by_evaluation | done]. }
  apply contains_occurs in H1 as (a & b & E1).
  assert (FixSimple.step2 (FixSimple.step1 content)
          = (FixSimple.step2 a ++ render_head)
              ++ lit "Canvas =  canvas);" ++ FixSimple.step2 b) as E2.
  { rewrite E1. unfold FixSimple.step2. rewrite !replace_scan by lit_nonempty.
    change (lit ".Process(f, canvas);")
      with (lit ".Process(f," ++ lit " canvas);").
    rewrite <- app_assoc.
    rewrite scan_app_boundary; [| lit_nonempty | by_evaluation].
    rewrite scan_hit by lit_nonempty.
    rewrite scan_through by by_evaluation.
    change FixSimple.render_prefix with (render_head ++ lit "Canvas = ").
    change (lit "Canvas =  canvas);") with (lit "Canvas = " ++ lit " canvas);").
    by rewrite <- !app_assoc. }
  unfold FixSimple.transform. rewrite step3_after_step2, E2.
  unfold FixSimple.step5. rewrite replace_scan by lit_nonempty.
  change (FixSimple.render_prefix ++ lit "canvas });")
    with (render_head ++ lit "Canvas = canvas });").
  apply scan_keeps; [lit_nonempty | by_evaluation | by_evaluation |].
  unfold FixSimple.step4. rewrite replace_scan by lit_nonempty.
  rewrite scan_app_boundary; [| lit_nonempty | by_evaluation].
  rewrite scan_hit by lit_nonempty.
  assert (forall x, scan (lit "Canvas =  canvas);") (lit "Canvas = canvas });")
                      (x ++ render_head)
                    = scan (lit "Canvas =  canvas);")
                        (lit "Canvas = canvas });") x ++ render_head) as E4.
  { intros x. rewrite <- (app_nil_r render_head) at 1.
    rewrite scan_app_boundary; [| lit_nonempty | by_evaluation].
    rewrite scan_through by by_evaluation.
    change (scan (lit "Canvas =  canvas);") (lit "Canvas = canvas });") [])
      with (@nil N).
    by rewrite app_nil_r. }
  rewrite E4. apply contains_occurs.
  exists (scan (lit "Canvas =  canvas);") (lit "Canvas = canvas });")
            (FixSimple.step2 a)),
         (scan (lit "Canvas =  canvas);") (lit "Canvas = canvas });")
            (FixSimple.step2 b)).
  by rewrite <- !app_assoc.
Qed.

Lemma fix_simple_rewrites_canvas_call_witness :
  contains (lit ".Process(f, canvas);") (lit "node.Process(f, canvas);") = true
  /\ contains (FixSimple.render_prefix ++ lit "canvas });")
       (FixSimple.transform (lit "node.Process(f, canvas);")) = true.
Proof.
  split; [vm_compute; reflexivity |].
  apply (fix_simple_rewrites_canvas_call (lit "node.Process(f, canvas);")).
  vm_compute. reflexivity.
Defined.

(** fix_braces.py looks for [Canvas = c);] with one space, while
    fix_simple.py leaves [Canvas =  c)] with two: run on what fix_simple.py
    wrote for a content with [.Process(f, c)], fix_braces.py does not close
    the call. *)
Theorem fix_braces_misses_what_fix_simple_leaves (content : text) :
  contains (lit ".Process(f, c)") content = true ->
  contains (lit "Canvas =  c)")
    (FixBraces.transform (FixSimple.transform content)) = true.
Proof.
  intros H. apply fix_simple_leaves_dangling_canvas in H.
  unfold FixBraces.transform. rewrite !replace_scan by lit_nonempty.
  apply scan_keeps; [lit_nonempty | by_evaluation | by_evaluation |].
  apply scan_keeps; [lit_nonempty | by_evaluation | by_evaluation |].
  exact H.
Qed.

Lemma fix_braces_misses_what_fix_simple_leaves_witness :
  contains (lit ".Process(f, c)") (lit "node.Process(f, c);") = true
  /\ contains (lit "Canvas =  c)")
       (FixBraces.transform (FixSimple.transform (lit "node.Process(f, c);")))
     = true.
Proof.
  split; [vm_compute; reflexivity |].
  apply (fix_braces_misses_what_fix_simple_leaves (lit "node.Process(f, c);")).
  vm_compute. reflexivity.
Defined.

(* ===================================================================== *)
(** ** fix.py on a content without its markers *)
(* ===================================================================== *)

Lemma contains_drop (q s : text) (i : nat) :
  contains q (drop i s) = true -> contains q s = true.
Proof.
  intros H. rewrite <- (take_drop i s). by apply contains_app_left.
Qed.

(** A pattern is found only where its first literal is. *)
Lemma search_needs_literal (l : text) (pat : pattern) (s : text) :
  is_found (search (Lit l :: pat) s) = true -> contains l s = true.
Proof.
  destruct (search (Lit l :: pat) s) as [[i j]|] eqn:E; [intros _ | done].
  destruct (search_span _ _ _ _ E) as (_ & _ & Hm).
  rewrite match_here_lit in Hm.
  destruct (startswith l (drop i s)) eqn:Hs; [| done].
  by apply (contains_drop l s i), contains_of_startswith.
Qed.

Lemma apply_rule_without_literal
    (l : text) (pat : pattern) (repl : text) (st : text * bool) :
  contains l (fst st) = false -> Fix.apply_rule (Lit l :: pat) repl st = st.
Proof.
  intros H. unfold Fix.apply_rule.
  destruct (is_found (search (Lit l :: pat) (fst st))) eqn:E; [| done].
  apply search_needs_literal in E. congruence.
Qed.

Lemma contains_shorter_false (p q s : text) :
  contains p s = false -> contains (p ++ q) s = false.
Proof.
  intros H. destruct (contains (p ++ q) s) eqn:E; [| done].
  apply contains_longer in E. congruence.
Qed.

(** A content that holds neither [public override ] nor
    [#region Configuration] fires no rule of fix.py: the only thing the
    script does to it is to normalize its end. *)
Theorem fix_only_normalizes_foreign_content (content : text) :
  contains (lit "public override ") content = false ->
  contains (lit "#region Configuration") content = false ->
  Fix.changes_made content = false
  /\ Fix.transform content = rstrip content ++ [LF].
Proof.
  intros Hp Hr.
  assert (Fix.rules content = (content, false)) as E.
  { unfold Fix.rules.
    unfold Fix.process_frame_pattern, Fix.get_config_pattern,
      Fix.apply_config_pattern, Fix.process_frame_sig, Fix.get_config_sig,
      Fix.apply_config_sig, Fix.incomplete_region_pattern,
      Fix.trailing_region_pattern.
    cbn [app].
    change (lit "public override void ProcessFrame(")
      with (lit "public override " ++ lit "void ProcessFrame(").
    change (lit "public override Dictionary<string, object> GetConfiguration()")
      with (lit "public override "
              ++ lit "Dictionary<string, object> GetConfiguration()").
    change (lit "public override void ApplyConfiguration(Dictionary<string, object> config)")
      with (lit "public override "
              ++ lit "void ApplyConfiguration(Dictionary<string, object> config)").
    rewrite (apply_rule_without_literal _ _ _ (content, false))
      by (by apply contains_shorter_false).
    rewrite (apply_rule_without_literal _ _ _ (content, false))
      by (by apply contains_shorter_false).
    rewrite (apply_rule_without_literal _ _ _ (content, false))
      by (by apply contains_shorter_false).
    rewrite (apply_rule_without_literal _ _ _ (content, false)) by done.
    by rewrite (apply_rule_without_literal _ _ _ (content, false)). }
  unfold Fix.changes_made, Fix.transform. by rewrite E.
Qed.

Lemma fix_only_normalizes_foreign_content_witness :
  Fix.changes_made (lit "int x;  ") = false
  /\ Fix.transform (lit "int x;  ") = rstrip (lit "int x;  ") ++ [LF].
Proof.
  apply (fix_only_normalizes_foreign_content (lit "int x;  "));
    vm_compute; reflexivity.
Defined.

(* ===================================================================== *)
(** ** fix_all_node_canvas_conversions.py: the loop over the files *)
(* ===================================================================== *)

Lemma canvas_transform_unchanged (c : text) :
  CanvasConversions.changed c = false -> CanvasConversions.transform c = c.
Proof.
  unfold CanvasConversions.changed, CanvasConversions.transform.
  destruct (contains CanvasConversions.adapter_name c); [done |].
  by destruct (CanvasConversions.first_fix CanvasConversions.patterns c).
Qed.




